(** * aiauto: transcript-driven UI replay engine and semantic judge

    A shallow embedding of
      - [aiauto/suites/ui/compare/scenario1.py]  (transcript loader, action
        compiler, replay loop of [run_scenario1]),
      - [aiauto/suites/ui/compare/agent_factory.py] (the [AgentFactory]
        helpers the loop calls),
      - [aiauto/suites/ui/compare/browser_controller.py] (the
        [BrowserController] methods the loop calls),
      - [aiauto/common/metrics.py] ([semantic_agreement]).

    Conventions.
      - A Python [str] is a Rocq [string], read as the UTF-8 encoding of the
        text.  Character classes ([str.lower], [str.strip], [\s], [\b],
        [re.I]) are modelled on the ASCII range; bytes above 127 are neither
        spaces, nor word characters, nor cased.
      - Python exceptions are values of [exn]; a call that can raise returns
        a [Res].  Mutable objects live in an explicit state that survives a
        raise, as Python's heap does. *)

From Stdlib Require Import String Ascii List Bool Arith ZArith Lia.
From Stdlib Require Import RelationClasses.
Import ListNotations.
Open Scope list_scope.
Open Scope string_scope.

(* ===================================================================== *)
(** * Python strings *)
(* ===================================================================== *)

Module Py.

(** [str.isspace] on the ASCII range: TAB..CR, FS..US and SPACE. *)
Definition is_space (c : ascii) : bool :=
  let n := nat_of_ascii c in
  (((9 <=? n) && (n <=? 13)) || ((28 <=? n) && (n <=? 32)))%nat.

Definition is_upper (c : ascii) : bool :=
  let n := nat_of_ascii c in ((65 <=? n) && (n <=? 90))%nat.

Definition is_lower (c : ascii) : bool :=
  let n := nat_of_ascii c in ((97 <=? n) && (n <=? 122))%nat.

Definition is_digit (c : ascii) : bool :=
  let n := nat_of_ascii c in ((48 <=? n) && (n <=? 57))%nat.

(** [\w] of the [re] module on the ASCII range. *)
Definition is_word (c : ascii) : bool :=
  is_upper c || is_lower c || is_digit c || Ascii.eqb c "_"%char.

Definition lower_char (c : ascii) : ascii :=
  if is_upper c then ascii_of_nat (nat_of_ascii c + 32) else c.

(** [s.lower()] *)
Fixpoint lower (s : string) : string :=
  match s with
  | EmptyString => EmptyString
  | String c s' => String (lower_char c) (lower s')
  end.

(** [s.lstrip()] *)
Fixpoint lstrip (s : string) : string :=
  match s with
  | EmptyString => EmptyString
  | String c s' => if is_space c then lstrip s' else s
  end.

(** [s.rstrip()] *)
Fixpoint rstrip (s : string) : string :=
  match s with
  | EmptyString => EmptyString
  | String c s' =>
      match rstrip s' with
      | EmptyString => if is_space c then EmptyString else String c EmptyString
      | r => String c r
      end
  end.

(** [s.strip()] *)
Definition strip (s : string) : string := rstrip (lstrip s).

(** [s.startswith(p)] *)
Definition startswith (s p : string) : bool := String.prefix p s.

(** [sub in s] *)
Fixpoint contains (sub s : string) : bool :=
  String.prefix sub s ||
  match s with
  | EmptyString => false
  | String _ s' => contains sub s'
  end.

(** Truthiness of a [str]: [bool(s)]. *)
Definition truthy (s : string) : bool :=
  match s with EmptyString => false | _ => true end.

(** [a or b] on strings. *)
Definition str_or (a b : string) : string := if truthy a then a else b.

(** [x in xs] for a list of strings. *)
Definition mem (x : string) (xs : list string) : bool :=
  existsb (String.eqb x) xs.

End Py.

(* ===================================================================== *)
(** * The fragment of [re] the click table uses *)
(* ===================================================================== *)

Module Re.

(** The seven patterns of [click_map] are built from literal characters,
    [\b] and [\s*] only. *)
Inductive atom : Type :=
| Lit (c : ascii)        (* a literal character, [\+] and [-] included *)
| WordBoundary           (* [\b] *)
| Spaces.                (* [\s*] *)

Definition pattern : Type := list atom.

Fixpoint lit (s : string) : pattern :=
  match s with
  | EmptyString => []
  | String c s' => Lit c :: lit s'
  end.

(** [flags=re.I]: a literal matches a character up to ASCII case. *)
Definition eqb_ci (a b : ascii) : bool :=
  Ascii.eqb (Py.lower_char a) (Py.lower_char b).

Definition word_before (prev : option ascii) : bool :=
  match prev with Some c => Py.is_word c | None => false end.

Definition word_after (s : string) : bool :=
  match s with String c _ => Py.is_word c | EmptyString => false end.

(** [\b] holds between [prev] and the head of [s] when exactly one side is
    a word character. *)
Definition at_boundary (prev : option ascii) (s : string) : bool :=
  xorb (word_before prev) (word_after s).

(** Does [p] match a prefix of [s], the character before [s] being [prev]?
    Backtracking over [\s*] is the disjunction of "stop here" and "eat one
    more space". *)
Fixpoint match_here (p : pattern) : option ascii -> string -> bool :=
  match p with
  | [] => fun _ _ => true
  | Lit c :: p' =>
      fun _ s =>
        match s with
        | String a s' => eqb_ci c a && match_here p' (Some a) s'
        | EmptyString => false
        end
  | WordBoundary :: p' =>
      fun prev s => at_boundary prev s && match_here p' prev s
  | Spaces :: p' =>
      fix eat (prev : option ascii) (s : string) : bool :=
        match_here p' prev s ||
        match s with
        | String a s' => Py.is_space a && eat (Some a) s'
        | EmptyString => false
        end
  end.

Fixpoint search_from (p : pattern) (prev : option ascii) (s : string) : bool :=
  match_here p prev s ||
  match s with
  | String a s' => search_from p (Some a) s'
  | EmptyString => false
  end.

(** [bool(re.search(p, s, flags=re.I))] *)
Definition search (p : pattern) (s : string) : bool := search_from p None s.

End Re.

(* ===================================================================== *)
(** * Exceptions and results *)
(* ===================================================================== *)

Inductive exn : Type :=
| FileNotFoundError (msg : string)
| ValueError (msg : string)
| RuntimeError (msg : string)
| Exception (msg : string).   (* any other subclass of [Exception] *)

(** [str(e)] *)
Definition exn_str (e : exn) : string :=
  match e with
  | FileNotFoundError m | ValueError m | RuntimeError m | Exception m => m
  end.

Inductive Res (A : Type) : Type :=
| Ok (a : A)
| Raise (e : exn).
Arguments Ok {A} a.
Arguments Raise {A} e.

(* ===================================================================== *)
(** * Transcript loader: [_load_transcript_any] *)
(* ===================================================================== *)

Module Loader.

(** A cell of a pandas frame, as far as [str(cell)] can tell. *)
Inductive cell : Type :=
| CStr (s : string)      (* a text cell *)
| CNaN                   (* a missing value: [str(float('nan'))] is "nan" *)
| CObj (repr : string).  (* any other value, with its [str()] *)

Definition py_str (c : cell) : string :=
  match c with
  | CStr s => s
  | CNaN => "nan"
  | CObj r => r
  end.

(** A frame as the readers return it: the column labels (their [str()])
    and the rows. *)
Record DataFrame : Type := mkFrame {
  columns : list string;
  rows : list (list cell)
}.

(** The two-column frame [_load_transcript_any] returns: each row holds the
    [Speaker] cell and the [Message] cell. *)
Definition Transcript : Type := list (cell * cell).

(** What the loader asks of [pathlib], [pandas] and [csv]. *)
Record Libs : Type := mkLibs {
  path_exists : string -> bool;                 (* [Path(p).exists()] *)
  path_suffix : string -> string;               (* [Path(p).suffix] *)
  path_resolve : string -> string;              (* [str(Path(p).resolve())] *)
  read_excel : string -> string -> Res DataFrame;   (* engine, path *)
  read_text : string -> Res string;             (* utf-8, errors=replace *)
  sniff : string -> Res string;                 (* [csv.Sniffer().sniff(h).delimiter] *)
  read_csv : string -> option string -> Res DataFrame  (* text, [sep] *)
}.

Definition dquote : ascii := ascii_of_nat 34.
Definition LF : ascii := ascii_of_nat 10.
Definition CR : ascii := ascii_of_nat 13.

(** The byte-order mark U+FEFF in UTF-8. *)
Definition BOM : string :=
  String (ascii_of_nat 239) (String (ascii_of_nat 187)
    (String (ascii_of_nat 191) EmptyString)).

(** [raw.lstrip(BOM)]: every leading mark goes. *)
Fixpoint lstrip_bom_fuel (n : nat) (s : string) : string :=
  match n with
  | O => s
  | S k =>
      if String.prefix BOM s
      then lstrip_bom_fuel k (String.substring 3 (String.length s - 3) s)
      else s
  end.
Definition lstrip_bom (s : string) : string :=
  lstrip_bom_fuel (String.length s) s.

(** A line boundary of [str.splitlines] on the ASCII range, CR LF apart. *)
Definition is_linebreak (c : ascii) : bool :=
  let n := nat_of_ascii c in
  (((10 <=? n) && (n <=? 13)) || ((28 <=? n) && (n <=? 30)))%nat.

(** [s.splitlines()]: [cur] is the line being read, reversed. *)
Fixpoint splitlines_aux (s : string) (cur : list ascii) : list string :=
  match s with
  | EmptyString =>
      match cur with
      | [] => []
      | _ => [string_of_list_ascii (rev cur)]
      end
  | String c s' =>
      if is_linebreak c then
        let rest :=
          match s' with
          | String d s'' =>
              if Ascii.eqb c CR && Ascii.eqb d LF
              then splitlines_aux s'' []
              else splitlines_aux s' []
          | EmptyString => splitlines_aux s' []
          end in
        string_of_list_ascii (rev cur) :: rest
      else splitlines_aux s' (c :: cur)
  end.
Definition splitlines (s : string) : list string := splitlines_aux s [].

Definition endswith_char (s : string) (c : ascii) : bool :=
  match rev (list_ascii_of_string s) with
  | d :: _ => Ascii.eqb d c
  | [] => false
  end.

Definition startswith_char (s : string) (c : ascii) : bool :=
  match s with String d _ => Ascii.eqb d c | EmptyString => false end.

(** [s.replace(QQ, Q)] for the quote character Q: every doubled quote
    becomes one, left to right, non-overlapping. *)
Fixpoint undouble_quotes (s : string) : string :=
  match s with
  | EmptyString => EmptyString
  | String c s' =>
      match s' with
      | String d s'' =>
          if Ascii.eqb c dquote && Ascii.eqb d dquote
          then String dquote (undouble_quotes s'')
          else String c (undouble_quotes s')
      | EmptyString => String c EmptyString
      end
  end.

(** [LF.join(out)] *)
Definition join_lines (ls : list string) : string :=
  String.concat (String LF EmptyString) ls.

(** The body of the [for ln in lines] loop. *)
Definition unwrap_line (ln : string) : string :=
  let s := Py.strip ln in
  if (2 <=? String.length s)%nat && startswith_char s dquote && endswith_char s dquote
  then undouble_quotes (String.substring 1 (String.length s - 2) s)
  else s.

Definition _strip_outer_quotes_from_lines (raw : string) : string :=
  match splitlines raw with
  | [] => raw
  | (l0 :: _) as lines =>
      let header := Py.strip l0 in
      if startswith_char header dquote && endswith_char header dquote
         && Py.contains "," header
      then join_lines (map unwrap_line lines)
      else raw
  end.

(** [ext in {".xlsx", ".xlsm", ".xltx", ".xltm"}] and the [elif] chain. *)
Inductive Reader : Type :=
| Excel (engine : string)
| Csv.

Definition reader_for (ext : string) : option Reader :=
  if Py.mem ext [".xlsx"; ".xlsm"; ".xltx"; ".xltm"] then Some (Excel "openpyxl")
  else if String.eqb ext ".xls" then Some (Excel "xlrd")
  else if String.eqb ext ".xlsb" then Some (Excel "pyxlsb")
  else if String.eqb ext ".csv" then Some Csv
  else None.

(** The [.csv] branch. *)
Definition read_csv_robust (L : Libs) (path_str : string) : Res DataFrame :=
  match read_text L path_str with
  | Raise e => Raise e
  | Ok raw0 =>
      let raw := _strip_outer_quotes_from_lines (lstrip_bom raw0) in
      let sep :=
        match splitlines raw with
        | [] => ","              (* [splitlines()[0]] raises, and is caught *)
        | h :: _ => match sniff L h with Ok d => d | Raise _ => "," end
        end in
      match read_csv L raw (Some sep) with
      | Ok df => Ok df
      | Raise _ => read_csv L raw None
      end
  end.

(** [{c.lower(): c for c in df.columns}.get(key)]: the last column whose
    lower-cased label is [key], by position.  Selecting it by label, as
    the source does, is the same when the stripped labels are pairwise
    distinct, which holds for frames read by pandas unless stripping
    merges two headers. *)
Fixpoint find_column (key : string) (cols : list string) (i : nat) : option nat :=
  match cols with
  | [] => None
  | c :: cs =>
      match find_column key cs (S i) with
      | Some j => Some j
      | None => if String.eqb (Py.lower c) key then Some i else None
      end
  end.

(** The cell of column [i] in a row; a short row reads as missing. *)
Definition cell_at (i : nat) (r : list cell) : cell := nth i r CNaN.

Definition render_columns (cols : list string) : string :=
  "[" ++ String.concat ", " (map (fun c => "'" ++ c ++ "'") cols) ++ "]".

Definition _load_transcript_any (L : Libs) (path_str : string) : Res Transcript :=
  if negb (path_exists L path_str) then
    Raise (FileNotFoundError ("Transcript not found: " ++ path_resolve L path_str))
  else
    let ext := Py.lower (path_suffix L path_str) in
    match reader_for ext with
    | None =>
        Raise (ValueError ("Unsupported transcript extension '" ++ ext
                           ++ "'. Use .xlsx/.xls/.xlsb/.csv"))
    | Some rd =>
        let parsed :=
          match rd with
          | Excel engine => read_excel L engine path_str
          | Csv => read_csv_robust L path_str
          end in
        match parsed with
        | Raise e => Raise e
        | Ok df =>
            let cols := map Py.strip (columns df) in
            match find_column "speaker" cols 0, find_column "message" cols 0 with
            | Some i, Some j =>
                Ok (map (fun r => (cell_at i r, cell_at j r)) (rows df))
            | _, _ =>
                Raise (ValueError ("Expected columns 'Speaker' and 'Message' in "
                                   ++ path_str ++ ". Found: " ++ render_columns cols))
            end
        end
    end.

End Loader.

(* ===================================================================== *)
(** * Action compiler: [build_steps_from_excel] *)
(* ===================================================================== *)

Module Compiler.
Import Loader.

(** An entry of [steps]: [{"action": "click", "label": l}] or
    [{"role": "user", "text": t}]. *)
Inductive Step : Type :=
| Click (label : string)
| FreeText (text : string).

(** An entry of [context]: [{"role": .., "agent": .., "text": ..}]. *)
Record Turn : Type := mkTurn {
  role : string;
  agent : string;
  text : string
}.

Definition around (s : string) : Re.pattern :=
  (Re.WordBoundary :: Re.lit s ++ [Re.WordBoundary])%list.

(** [click_map]: phrase patterns and the UI button labels they stand for. *)
Definition click_map : list (Re.pattern * string) :=
  [ (around "Live in it", "Live in it");
    (around "Rent it out", "Rent it out");
    ((Re.WordBoundary :: Re.lit "6+" ++ Re.Spaces :: Re.lit "months"
        ++ [Re.WordBoundary])%list, "6+ months away");
    ((Re.WordBoundary :: Re.lit "3-6" ++ Re.Spaces :: Re.lit "months"
        ++ [Re.WordBoundary])%list, "3-6 months away");
    (around "less than 3 months", "Less than 3 months");
    (around "already ended", "It's already ended");
    (around "Check here", "Check here") ].

(** The inner [for patt, label in click_map] loop with its [break]. *)
Fixpoint first_match (table : list (Re.pattern * string)) (msg : string)
  : option string :=
  match table with
  | [] => None
  | (patt, label) :: rest =>
      if Re.search patt msg then Some label else first_match rest msg
  end.

(** What one row appends to [steps]. *)
Definition row_steps (who msg : string) : list Step :=
  if String.eqb (Py.lower who) "anant" && Py.truthy msg then
    match first_match click_map msg with
    | Some label => [Click label]
    | None => [FreeText msg]
    end
  else [].

(** What one row appends to [context]. *)
Definition row_turn (who msg : string) : Turn :=
  {| role := if Py.startswith (Py.lower who) "compare" then "assistant" else "user";
     agent := Py.str_or who "Unknown";
     text := msg |}.

(** The body of [for _, row in df.iterrows()]. *)
Definition compile_row (acc : list Step * list Turn) (row : cell * cell)
  : list Step * list Turn :=
  let who := Py.strip (py_str (fst row)) in
  let msg := Py.strip (py_str (snd row)) in
  ((fst acc ++ row_steps who msg)%list, (snd acc ++ [row_turn who msg])%list).

Definition compile_rows (df : Transcript) : list Step * list Turn :=
  fold_left compile_row df ([], []).

(** The [AIQA_DEBUG] branch only prints and is left out. *)
Definition build_steps_from_excel (L : Libs) (path : string)
  : Res (list Step * list Turn) :=
  match _load_transcript_any L path with
  | Raise e => Raise e
  | Ok df => Ok (compile_rows df)
  end.

End Compiler.

(* ===================================================================== *)
(** * A state-and-exception monad *)
(* ===================================================================== *)

(** [M S A]: a computation over a mutable state [S] that returns an [A] or
    raises.  The state reached at a raise is kept: Python does not undo
    mutations when an exception unwinds. *)
Definition M (S A : Type) : Type := S -> Res A * S.

Definition ret {S A} (a : A) : M S A := fun s => (Ok a, s).

Definition raise {S A} (e : exn) : M S A := fun s => (Raise e, s).

Definition bind {S A B} (m : M S A) (f : A -> M S B) : M S B :=
  fun s =>
    match m s with
    | (Ok a, s1) => f a s1
    | (Raise e, s1) => (Raise e, s1)
    end.

(** [try: m  except Exception as e: h e] *)
Definition try_except {S A} (m : M S A) (h : exn -> M S A) : M S A :=
  fun s =>
    match m s with
    | (Ok a, s1) => (Ok a, s1)
    | (Raise e, s1) => h e s1
    end.

(** [try: m  finally: c]: [c] always runs; an exception of [c] replaces the
    pending one. *)
Definition try_finally {S A} (m : M S A) (c : M S unit) : M S A :=
  fun s =>
    match m s with
    | (r, s1) =>
        match c s1 with
        | (Ok _, s2) => (r, s2)
        | (Raise e, s2) => (Raise e, s2)
        end
    end.

Definition get {S} : M S S := fun s => (Ok s, s).
Definition modify {S} (f : S -> S) : M S unit := fun s => (Ok tt, f s).

(** A result computed outside the state. *)
Definition lift {S A} (r : Res A) : M S A := fun s => (r, s).

Declare Scope monad_scope.
Delimit Scope monad_scope with monad.
Notation "x <- m ;; k" := (bind m (fun x => k))
  (at level 61, m at next level, right associativity) : monad_scope.
Notation "m ;; k" := (bind m (fun _ => k))
  (at level 61, right associativity) : monad_scope.
Open Scope monad_scope.

(* ===================================================================== *)
(** * The scenario runner: [run_scenario1] and what it calls *)
(* ===================================================================== *)

Module Engine.
Import Compiler.

(** An entry of the runner's [transcript] list. *)
Record Event : Type := mkEvent {
  timestamp : string;
  ev_role : string;
  ev_agent : string;
  ev_text : string;
  ev_screenshot : option string  (* [None]: the dict has no such key *)
}.

(** [{"timestamp": now_iso, **t}] *)
Definition event_of_turn (now_iso : string) (t : Turn) : Event :=
  mkEvent now_iso (role t) (agent t) (text t) None.

(** Method and helper invocations, in the order they are entered. *)
Inductive Call : Type :=
| CLaunch
| CGoto (url : string)
| CWaitNetworkIdle (t : Z)
| CSettle (ms : Z)
| CScrollDown (px : Z)
| CScreenshot (name : string)
| CTrySendMessage (message : string)
| CClickButtonByText (text : string) (exact : bool)
| CCurrentButtons
| CClose
| CLogToExcel (agent_name role content : string)
| CClickAndLog (label : string) (exact : bool)
| CTypeAndLog (message : string)
| CAnswerChoice (label : string) (prefer_click : bool)
| CObserveCurrentButtons
| CAClose
| CSafeScreenshot (name_prefix : string)
| CTestingAgentRun
| CRenderHtmlReport.

(** The attributes [launch] assigns on the [BrowserController]. *)
Record Handles : Type := mkHandles {
  h_pw : bool;
  h_browser : bool;
  h_context : bool;
  h_page : bool
}.

(** [answered = {"term_end": False, "occupancy": False}] *)
Record Answered : Type := mkAnswered {
  term_end : bool;
  occupancy : bool
}.

(** [CHOICE_PREFERENCES = {"term_end": None, "occupancy": None}] *)
Record Preferences : Type := mkPreferences {
  pref_term_end : option string;
  pref_occupancy : option string
}.

(** [cfg], as far as the runner reads it. *)
Record Config : Type := mkConfig {
  start_url : string;
  reports_dir : string;
  files_root : string;
  logs_excel : string
}.

(** The en dash U+2013 in UTF-8. *)
Definition EN_DASH : string :=
  String (ascii_of_nat 226) (String (ascii_of_nat 128)
    (String (ascii_of_nat 147) EmptyString)).

Definition SCENARIO_TITLE : string :=
  "Scenario 1 " ++ EN_DASH ++ " Direct Entry To Comparison".
Definition EXCEL_TRANSCRIPT : string := "files/chat_conversation.csv".

Definition PROGRESS_BUTTONS : list string :=
  [ "Compare live mortgage deals";
    "Get an expert recommendation";
    "Continue";
    "Next";
    "Compare deals";
    "Start comparison";
    "Proceed";
    "OK" ].

(** The two vocabulary sets of the loop, as duplicate-free lists. *)
Definition term_end_set : list string :=
  ["6+ months away"; "3-6 months away"; "Less than 3 months"; "It's already ended"].
Definition occupancy_set : list string := ["Live in it"; "Rent it out"].

(** [len(set(visible) & vocab)] *)
Definition count_common (visible vocab : list string) : nat :=
  length (filter (fun v => Py.mem v visible) vocab).

(** [any(needle in b.lower() for b in visible)] *)
Definition any_contains (needle : string) (visible : list string) : bool :=
  existsb (fun b => Py.contains needle (Py.lower b)) visible.

(** The [for pbtn in PROGRESS_BUTTONS] scan with its [break]; [None] when
    the loop ends without a hit. *)
Fixpoint find_progress (buttons visible : list string) : option string :=
  match buttons with
  | [] => None
  | pbtn :: rest =>
      if any_contains (Py.lower pbtn) visible then
        Some (if any_contains "compare live mortgage deals" visible
              then "Compare live mortgage deals" else pbtn)
      else find_progress rest visible
  end.

(** The body of [for t in context_transcript] that fills
    [CHOICE_PREFERENCES]. *)
Definition scan_turn (p : Preferences) (t : Turn) : Preferences :=
  let txt := Py.lower (text t) in
  let occ :=
    if Py.contains "live in it" txt then Some "Live in it"
    else if Py.contains "rent it out" txt then Some "Rent it out"
    else pref_occupancy p in
  let te :=
    if Py.contains "6+ months" txt then Some "6+ months away"
    else if Py.contains "3-6 months" txt
            || Py.contains ("3 " ++ EN_DASH ++ " 6 months") txt
            || Py.contains ("3" ++ EN_DASH ++ "6 months") txt
         then Some "3-6 months away"
    else if Py.contains "less than 3 months" txt then Some "Less than 3 months"
    else if Py.contains "already ended" txt then Some "It's already ended"
    else pref_term_end p in
  mkPreferences te occ.

Definition scan_preferences (context : list Turn) : Preferences :=
  fold_left scan_turn context (mkPreferences None None).

(** [prefs.get(k) or default] *)
Definition pref_or (p : option string) (default : string) : string :=
  match p with
  | Some c => Py.str_or c default
  | None => default
  end.

(** [_pop_matching_click]: the first pending click whose label is contained,
    case-insensitively, in a visible label, and the queue without it. *)
Fixpoint pop_matching_click (visible : list string) (pending : list Step)
  : option (string * list Step) :=
  match pending with
  | [] => None
  | s :: rest =>
      let later :=
        match pop_matching_click visible rest with
        | Some (lab, rest') => Some (lab, s :: rest')
        | None => None
        end in
      match s with
      | Click lab => if any_contains (Py.lower lab) visible then Some (lab, rest) else later
      | FreeText _ => later
      end
  end.

(** [_pop_next_free_text]: the first pending free text, and the queue
    without it. *)
Fixpoint pop_next_free_text (pending : list Step) : option (string * list Step) :=
  match pending with
  | [] => None
  | s :: rest =>
      match s with
      | FreeText t => Some (t, rest)
      | Click _ =>
          match pop_next_free_text rest with
          | Some (t, rest') => Some (t, s :: rest')
          | None => None
          end
      end
  end.

(** [str(b)] for a [bool] *)
Definition py_bool (b : bool) : string := if b then "True" else "False".

Section Runner.

(** The world outside the program: the browser behind Playwright, the
    clock, the file system, the workbook log and the language model. *)
Context {W : Type}.

Record Host : Type := mkHost {
  (* clock and environment *)
  now_iso : W -> string * W;            (* [datetime.now().isoformat(..)] *)
  now_stamp : W -> string * W;          (* [strftime('%Y%m%d-%H%M%S')] *)
  skip_llm : W -> bool;                 (* [os.getenv("AIQA_SKIP_LLM") == "1"] *)
  files : Loader.Libs;
  mkdir : string -> W -> Res unit * W;
  (* Playwright *)
  pw_start : W -> Res unit * W;
  chromium_launch : W -> Res unit * W;
  new_context : W -> Res unit * W;
  new_page : W -> Res unit * W;
  page_goto : string -> W -> Res unit * W;
  wait_for_load_state : Z -> W -> Res unit * W;
  wait_for_timeout : Z -> W -> Res unit * W;
  mouse_wheel : Z -> Z -> W -> Res unit * W;
  page_screenshot : string -> W -> Res unit * W;
  context_close : W -> Res unit * W;
  browser_close : W -> Res unit * W;
  pw_stop : W -> Res unit * W;
  (* the DOM probes of [BrowserController], taken whole *)
  dom_try_send_message : string -> W -> Res bool * W;
  dom_click_button_by_text : string -> bool -> W -> Res bool * W;
  dom_list_buttons : W -> Res (list string) * W;
  (* [AgentFactory.__init__], the workbook log, the model *)
  make_factory : Config -> W -> Res unit * W;
  excel_log_message : string -> string -> string -> W -> Res unit * W;
  testing_agent_run : W -> Res string * W;     (* on SCENARIO1_TESTING_PROMPT *)
  model_client_close : W -> Res unit * W;
  (* [render_html_report]: templating and the file write *)
  write_report : list Event -> string -> string -> string -> W -> Res unit * W
}.

Variable H : Host.

(** The runner's mutable objects. *)
Record St : Type := mkSt {
  world : W;
  calls : list Call;
  handles : Handles;
  transcript : list Event;
  pending_steps : list Step;
  answered : Answered
}.

Definition set_world (s : St) (w : W) : St :=
  mkSt w (calls s) (handles s) (transcript s) (pending_steps s) (answered s).
Definition set_handles (h : Handles) (s : St) : St :=
  mkSt (world s) (calls s) h (transcript s) (pending_steps s) (answered s).
Definition set_pending (p : list Step) (s : St) : St :=
  mkSt (world s) (calls s) (handles s) (transcript s) p (answered s).
Definition set_answered (a : Answered) (s : St) : St :=
  mkSt (world s) (calls s) (handles s) (transcript s) (pending_steps s) a.

(** A step of the outside world. *)
Definition prim {A} (op : W -> Res A * W) : M St A :=
  fun s => let (r, w) := op (world s) in (r, set_world s w).

(** A read of the outside world that cannot raise. *)
Definition ask {A} (op : W -> A * W) : M St A :=
  fun s => let (a, w) := op (world s) in (Ok a, set_world s w).

(** Entering a method. *)
Definition enter (c : Call) : M St unit :=
  fun s => (Ok tt, mkSt (world s) (calls s ++ [c])%list (handles s)
                        (transcript s) (pending_steps s) (answered s)).

(** [transcript.append(e)] *)
Definition append_event (e : Event) : M St unit :=
  fun s => (Ok tt, mkSt (world s) (calls s) (handles s)
                        (transcript s ++ [e])%list (pending_steps s) (answered s)).

(* --------------------------------------------------------------------- *)
(** ** [BrowserController] *)

Definition launch : M St unit :=
  enter CLaunch ;;
  prim (pw_start H) ;;
  modify (fun s => set_handles (mkHandles true (h_browser (handles s))
                      (h_context (handles s)) (h_page (handles s))) s) ;;
  prim (chromium_launch H) ;;
  modify (fun s => set_handles (mkHandles (h_pw (handles s)) true
                      (h_context (handles s)) (h_page (handles s))) s) ;;
  prim (new_context H) ;;
  modify (fun s => set_handles (mkHandles (h_pw (handles s)) (h_browser (handles s))
                      true (h_page (handles s))) s) ;;
  prim (new_page H) ;;
  modify (fun s => set_handles (mkHandles (h_pw (handles s)) (h_browser (handles s))
                      (h_context (handles s)) true) s).

Definition goto (url : string) : M St unit :=
  enter (CGoto url) ;; prim (page_goto H url).

Definition wait_network_idle (t : Z) : M St unit :=
  enter (CWaitNetworkIdle t) ;;
  try_except (prim (wait_for_load_state H t))
             (fun _ => prim (wait_for_timeout H (Z.min 1500 t))).

Definition settle (ms : Z) : M St unit :=
  enter (CSettle ms) ;; prim (wait_for_timeout H ms).

Definition scroll_down (px : Z) : M St unit :=
  enter (CScrollDown px) ;;
  prim (mouse_wheel H 0 px) ;;
  settle 200.

(** The second [screenshot] of the class, which is the one in force. *)
Definition screenshot (name : string) : M St string :=
  enter (CScreenshot name) ;;
  let path := "files/screenshots/" ++ name ++ ".png" in
  prim (page_screenshot H path) ;;
  ret path.

Definition try_send_message (message : string) : M St bool :=
  enter (CTrySendMessage message) ;; prim (dom_try_send_message H message).

(** The second [click_button_by_text] of the class. *)
Definition click_button_by_text (text : string) (exact : bool) : M St bool :=
  enter (CClickButtonByText text exact) ;;
  prim (dom_click_button_by_text H text exact).

Definition current_buttons : M St (list string) :=
  enter CCurrentButtons ;; prim (dom_list_buttons H).

Definition when (b : bool) (m : M St unit) : M St unit :=
  if b then m else ret tt.

Definition close : M St unit :=
  enter CClose ;;
  try_finally
    (s <- get ;;
     when (h_context (handles s)) (prim (context_close H)) ;;
     when (h_browser (handles s)) (prim (browser_close H)))
    (s <- get ;;
     when (h_pw (handles s)) (prim (pw_stop H))).

(* --------------------------------------------------------------------- *)
(** ** [AgentFactory] *)

Definition log_to_excel (agent_name role content : string) : M St unit :=
  enter (CLogToExcel agent_name role content) ;;
  prim (excel_log_message H agent_name role content).

Definition click_and_log (label : string) (exact : bool) : M St bool :=
  enter (CClickAndLog label exact) ;;
  ok <- click_button_by_text label exact ;;
  log_to_excel "TestingAgent" "click" (label ++ " -> " ++ py_bool ok) ;;
  shot <- screenshot "after-click" ;;
  log_to_excel "TestingAgent" "screenshot" shot ;;
  ret ok.

Definition type_and_log (message : string) : M St bool :=
  enter (CTypeAndLog message) ;;
  sent <- try_send_message message ;;
  log_to_excel "TestingAgent" "say" ("'" ++ message ++ "' -> sent=" ++ py_bool sent) ;;
  shot <- screenshot "after-say" ;;
  log_to_excel "TestingAgent" "screenshot" shot ;;
  ret sent.

Definition answer_choice (label : string) (prefer_click : bool) : M St string :=
  enter (CAnswerChoice label prefer_click) ;;
  if negb prefer_click then
    sent <- type_and_log label ;;
    if sent then ret "typed"
    else
      ok <- click_and_log label false ;;
      ret (if ok then "clicked" else "failed")
  else
    ok <- click_and_log label false ;;
    if ok then ret "clicked"
    else
      sent <- type_and_log label ;;
      ret (if sent then "typed" else "failed").

Definition observe_current_buttons : M St (list string) :=
  enter CObserveCurrentButtons ;;
  btns <- current_buttons ;;
  log_to_excel "TestingAgent" "buttons(current)" (String.concat ", " btns) ;;
  ret btns.

Definition aclose : M St unit :=
  enter CAClose ;; prim (model_client_close H).

(* --------------------------------------------------------------------- *)
(** ** Helpers of the runner *)

(** [_safe_screenshot]: the controller's [screenshot] first; on any
    exception the Playwright page directly; on any exception there, the
    empty path. *)
Definition _safe_screenshot (name_prefix : string) : M St string :=
  enter (CSafeScreenshot name_prefix) ;;
  ts <- ask (now_stamp H) ;;
  try_except (screenshot name_prefix)
    (fun _ =>
       try_except
         (prim (mkdir H "files/shots") ;;
          let out := "files/shots/" ++ name_prefix ++ "-" ++ ts ++ ".png" in
          s <- get ;;
          if h_page (handles s)
          then prim (page_screenshot H out) ;; ret out
          else ret EmptyString)
         (fun _ => ret EmptyString)).

Definition action_event (ts text shot : string) : Event :=
  mkEvent ts "action" "TestingAgent" text (Some shot).

(** How a pass through the body of [for _ in range(80)] ends. *)
Inductive Flow : Type :=
| Continue     (* [continue] *)
| Break.       (* [break] *)

(** The scroll loop ahead of the idle stop: [for _ in range(3)] with its
    [if visible: break].  Returns the final value of [visible]. *)
Fixpoint scroll_probe (n : nat) (visible : list string) : M St (list string) :=
  match n with
  | O => ret visible
  | S k =>
      scroll_down 900 ;;
      visible' <- observe_current_buttons ;;
      match visible' with
      | _ :: _ => ret visible'
      | [] => scroll_probe k visible'
      end
  end.

(** The rule chain of one tick, from [# 0) Progress buttons] down. *)
Definition decide (prefs : Preferences) (ts : string) (visible : list string)
  : M St Flow :=
  match find_progress PROGRESS_BUTTONS visible with
  | Some next_progress =>
      (* 0) progress buttons *)
      how <- answer_choice next_progress false ;;
      shot <- _safe_screenshot "after-progress" ;;
      append_event (action_event ts
        ("Progressed via '" ++ next_progress ++ "' using " ++ how) shot) ;;
      ret Continue
  | None =>
  s <- get ;;
  if negb (term_end (answered s)) && (2 <=? count_common visible term_end_set)%nat then
    (* 1) term end, answered once *)
    let choice := pref_or (pref_term_end prefs) "3-6 months away" in
    how <- answer_choice choice false ;;
    shot <- _safe_screenshot "after-term-end-answer" ;;
    append_event (action_event ts
      ("Answered 'term end' -> " ++ choice ++ " via " ++ how) shot) ;;
    modify (fun s => set_answered (mkAnswered true (occupancy (answered s))) s) ;;
    ret Continue
  else if negb (occupancy (answered s)) && (1 <=? count_common visible occupancy_set)%nat then
    (* 2) occupancy, answered once *)
    let choice := pref_or (pref_occupancy prefs) "Live in it" in
    how <- answer_choice choice false ;;
    shot <- _safe_screenshot "after-occupancy-answer" ;;
    append_event (action_event ts
      ("Answered 'occupancy' -> " ++ choice ++ " via " ++ how) shot) ;;
    modify (fun s => set_answered (mkAnswered (term_end (answered s)) true) s) ;;
    ret Continue
  else if any_contains "check here" visible then
    (* 3) product results *)
    how <- answer_choice "Check here" false ;;
    shot <- _safe_screenshot "after-check-here" ;;
    append_event (action_event ts ("Chose product via " ++ how) shot) ;;
    ret Continue
  else
    match pop_matching_click visible (pending_steps s) with
    | Some (label, rest) =>
        (* 4) explicit click from the transcript *)
        modify (set_pending rest) ;;
        how <- answer_choice label false ;;
        shot <- _safe_screenshot "after-explicit-choice" ;;
        append_event (action_event ts
          ("Matched transcript choice '" ++ label ++ "' via " ++ how) shot) ;;
        ret Continue
    | None =>
        match pop_next_free_text (pending_steps s) with
        | Some (txt, rest) =>
            (* 5) next free text from the transcript *)
            modify (set_pending rest) ;;
            _ <- type_and_log txt ;;
            shot <- _safe_screenshot "after-free-text" ;;
            append_event (mkEvent ts "user" "You" txt (Some shot)) ;;
            ret Continue
        | None =>
            (* scroll, then 6) nothing to do *)
            _ <- scroll_probe 3 visible ;;
            shot <- _safe_screenshot "idle-no-action" ;;
            append_event (mkEvent ts "info" "TestingAgent"
              "No matching buttons or text left; pausing." (Some shot)) ;;
            ret Break
        end
    end
  end.

(** One pass through the body of the main loop. *)
Definition tick (prefs : Preferences) : M St Flow :=
  wait_network_idle 4000 ;;
  settle 450 ;;
  visible <- observe_current_buttons ;;
  ts <- ask (now_iso H) ;;
  decide prefs ts visible.

(** [for _ in range(n)] around [tick]. *)
Fixpoint main_loop (n : nat) (prefs : Preferences) : M St unit :=
  match n with
  | O => ret tt
  | S k =>
      f <- tick prefs ;;
      match f with
      | Continue => main_loop k prefs
      | Break => ret tt
      end
  end.

(** The cookie and consent banners: [for label in [...]] with its [break]. *)
Fixpoint consent_loop (labels : list string) : M St unit :=
  match labels with
  | [] => ret tt
  | label :: rest =>
      ok <- try_except (click_button_by_text label false) (fun _ => ret false) ;;
      if ok then
        shot <- _safe_screenshot "after-cookie" ;;
        ts <- ask (now_iso H) ;;
        append_event (action_event ts ("Clicked consent: " ++ label) shot)
      else consent_loop rest
  end.

(** The optional end-of-run summary. *)
Definition llm_summary : M St string :=
  s <- get ;;
  if negb (skip_llm H (world s)) then
    try_except
      (enter CTestingAgentRun ;; prim (testing_agent_run H))
      (fun e => ret ("Summary failed: " ++ exn_str e))
  else ret "LLM summary skipped.".

Definition render_html_report (session_id title : string) : M St unit :=
  enter CRenderHtmlReport ;;
  s <- get ;;
  prim (write_report H (transcript s) "scenario1_report.html" session_id title).

Definition run_scenario1 (cfg : Config) : M St unit :=
  prim (mkdir H (reports_dir cfg)) ;;
  prim (mkdir H (files_root cfg)) ;;
  built <- lift (build_steps_from_excel (files H) EXCEL_TRANSCRIPT) ;;
  let manual_convo := fst built in
  let context_transcript := snd built in
  prim (make_factory H cfg) ;;
  stamp <- ask (now_stamp H) ;;
  let session_id := "scenario1-" ++ stamp in
  now <- ask (now_iso H) ;;
  modify (fun s => mkSt (world s) (calls s) (handles s)
            (transcript s ++ map (event_of_turn now) context_transcript)%list
            (pending_steps s) (answered s)) ;;
  launch ;;
  goto (start_url cfg) ;;
  wait_network_idle 3500 ;;
  settle 600 ;;
  shot <- _safe_screenshot "after-open" ;;
  ts <- ask (now_iso H) ;;
  append_event (action_event ts "Opened app." shot) ;;
  consent_loop ["Accept all cookies"; "Accept"; "I agree"; "Got it"; "Close"] ;;
  let CHOICE_PREFERENCES := scan_preferences context_transcript in
  modify (set_pending manual_convo) ;;
  modify (set_answered (mkAnswered false false)) ;;
  main_loop 80 CHOICE_PREFERENCES ;;
  summary_text <- llm_summary ;;
  log_to_excel "TestingAgent" "summary" summary_text ;;
  ts <- ask (now_iso H) ;;
  append_event (mkEvent ts "assistant" "TestingAgent" summary_text None) ;;
  render_html_report session_id SCENARIO_TITLE ;;
  close ;;
  aclose.

(** The state [run_scenario1] starts from. *)
Definition initial (w : W) : St :=
  mkSt w [] (mkHandles false false false false) [] [] (mkAnswered false false).

End Runner.

Arguments Host W : clear implicits.
Arguments St W : clear implicits.

End Engine.

(* ===================================================================== *)
(** * A scripted outside world *)
(* ===================================================================== *)

Module Stub.
Import Loader Compiler Engine.

(** The steps of the outside world that a script can make fail. *)
Inductive Prim : Type :=
| PMkdir | PPwStart | PChromiumLaunch | PNewContext | PNewPage | PPageGoto
| PWaitForLoadState | PWaitForTimeout | PMouseWheel | PPageScreenshot
| PContextClose | PBrowserClose | PPwStop
| PTrySendMessage | PClickButtonByText | PListButtons
| PMakeFactory | PExcelLog | PTestingAgentRun | PModelClientClose
| PWriteReport.

(** A script: the stream of observations, which typing and clicking
    succeed, which steps raise, and the parsed transcript file. *)
Record Script : Type := mkScript {
  observations : nat -> list string;    (* the n-th call of [list_buttons] *)
  send_ok : string -> bool;
  click_ok : string -> bool;
  fails : Prim -> bool;
  skip_summary : bool;
  frame : DataFrame
}.

(** The world is the number of observations made so far. *)
Definition World : Type := nat.

Definition step {A} (sc : Script) (p : Prim) (a : A) (w : World) : Res A * World :=
  if fails sc p then (Raise (Exception "scripted failure"), w) else (Ok a, w).

Definition stub_files (sc : Script) : Libs :=
  {| path_exists := fun _ => true;
     path_suffix := fun _ => ".csv";
     path_resolve := fun p => p;
     read_excel := fun _ _ => Ok (frame sc);
     read_text := fun _ => Ok "Speaker,Message";
     sniff := fun _ => Ok ",";
     read_csv := fun _ _ => Ok (frame sc) |}.

Definition host (sc : Script) : Host World :=
  {| now_iso := fun w => ("2025-01-01T00:00:00", w);
     now_stamp := fun w => ("20250101-000000", w);
     skip_llm := fun _ => skip_summary sc;
     files := stub_files sc;
     mkdir := fun _ => step sc PMkdir tt;
     pw_start := step sc PPwStart tt;
     chromium_launch := step sc PChromiumLaunch tt;
     new_context := step sc PNewContext tt;
     new_page := step sc PNewPage tt;
     page_goto := fun _ => step sc PPageGoto tt;
     wait_for_load_state := fun _ => step sc PWaitForLoadState tt;
     wait_for_timeout := fun _ => step sc PWaitForTimeout tt;
     mouse_wheel := fun _ _ => step sc PMouseWheel tt;
     page_screenshot := fun _ => step sc PPageScreenshot tt;
     context_close := step sc PContextClose tt;
     browser_close := step sc PBrowserClose tt;
     pw_stop := step sc PPwStop tt;
     dom_try_send_message := fun m => step sc PTrySendMessage (send_ok sc m);
     dom_click_button_by_text := fun t _ => step sc PClickButtonByText (click_ok sc t);
     dom_list_buttons := fun w =>
       if fails sc PListButtons then (Raise (Exception "scripted failure"), w)
       else (Ok (observations sc w), S w);
     make_factory := fun _ => step sc PMakeFactory tt;
     excel_log_message := fun _ _ _ => step sc PExcelLog tt;
     testing_agent_run := step sc PTestingAgentRun "summary";
     model_client_close := step sc PModelClientClose tt;
     write_report := fun _ _ _ _ => step sc PWriteReport tt |}.

Definition never : Prim -> bool := fun _ => false.

Definition two_columns (rs : list (string * string)) : DataFrame :=
  mkFrame ["Speaker"; "Message"] (map (fun r => [CStr (fst r); CStr (snd r)]) rs).


(** A CSV file that neither the sniffer nor either parse can read. *)
Definition broken_csv : Libs :=
  {| path_exists := fun _ => true;
     path_suffix := fun _ => ".csv";
     path_resolve := fun p => p;
     read_excel := fun _ _ => Raise (Exception "not a workbook");
     read_text := fun _ => Ok "a;b";
     sniff := fun _ => Raise (Exception "Could not determine delimiter");
     read_csv := fun _ sep =>
       match sep with
       | Some _ => Raise (Exception "first parse")
       | None => Raise (Exception "second parse")
       end |}.

Definition cfg0 : Config :=
  mkConfig "https://compare.example/" "reports" "files" "logs/compare_dialog.xlsx".

(** The three-row transcript of the end-to-end scenario. *)
Definition three_rows : DataFrame :=
  two_columns [("Compare", "Welcome"); ("Anant", "Live in it"); ("Anant", "looking good")].

(** The first observation shows the two occupancy choices, every later one
    nothing. *)
Definition occupancy_once (n : nat) : list string :=
  match n with
  | O => ["Live in it"; "Rent it out"]
  | S _ => []
  end.

(** Typing always succeeds or always fails, and so does clicking. *)
Definition scenario_script (typing clicking : bool) : Script :=
  mkScript occupancy_once (fun _ => typing) (fun _ => clicking) never true three_rows.

(** Every observation shows two term-end choices and "Continue". *)
Definition term_end_and_continue : Script :=
  mkScript (fun _ => ["6+ months away"; "3-6 months away"; "Continue"])
           (fun _ => true) (fun _ => false) never true (two_columns []).

(** Every observation shows two term-end choices and nothing else. *)
Definition term_end_only : Script :=
  mkScript (fun _ => ["6+ months away"; "3-6 months away"])
           (fun _ => true) (fun _ => false) never true (two_columns []).

(** Nothing is visible until the first scroll reveals the occupancy
    choices. *)
Definition revealed_by_scroll : Script :=
  mkScript (fun n => match n with O => [] | S _ => ["Live in it"; "Rent it out"] end)
           (fun _ => true) (fun _ => false) never true (two_columns []).

(** Navigation to the start URL fails. *)
Definition goto_fails : Script :=
  mkScript occupancy_once (fun _ => true) (fun _ => false)
           (fun p => match p with PPageGoto => true | _ => false end)
           true three_rows.

(** The language model fails at the summary. *)
Definition summary_fails : Script :=
  mkScript occupancy_once (fun _ => true) (fun _ => false)
           (fun p => match p with PTestingAgentRun => true | _ => false end)
           false three_rows.

(** The transcript file has no [Message] column. *)
Definition no_message_column : Script :=
  mkScript occupancy_once (fun _ => true) (fun _ => false) never true
           (mkFrame ["Speaker"; "Note"] [[CStr "Anant"; CStr "Live in it"]]).


(** The state in which the loop starts, with an empty log. *)
Definition loop_start (steps : list Step) : St World :=
  mkSt 0 [] (mkHandles true true true true) [] steps (mkAnswered false false).

End Stub.

(* ===================================================================== *)
(** * Semantic judge: [semantic_agreement] *)
(* ===================================================================== *)

Module Metrics.

Section Judge.

(** The embedding service's state, its vectors, and the floats of the
    score; the judge only compares a score with the threshold. *)
Context {W V F : Type}.

Record Embeddings : Type := mkEmbeddings {
  imported : bool;                         (* [OpenAIEmbeddings is not None] *)
  import_error : string;                   (* [str(_IMPORT_ERR)] *)
  construct : W -> Res unit * W;           (* [OpenAIEmbeddings()] *)
  embed_query : string -> W -> Res V * W;  (* [emb.embed_query(text)] *)
  cosine_similarity : V -> V -> Res F;     (* [float(cosine_similarity([a], [b])[0][0])] *)
  zero : F;                                (* [0.0] *)
  ge : F -> F -> bool                      (* [score >= threshold] *)
}.

Variable E : Embeddings.

(** The service and the texts sent to [embed_query], oldest first. *)
Record JSt : Type := mkJSt {
  service : W;
  embedded : list string
}.

Definition _require_embeddings : M JSt unit :=
  if imported E then ret tt
  else raise (RuntimeError
    ("OpenAIEmbeddings not available. Install and configure first:"
     ++ " Underlying import error: " ++ import_error E)).

Definition new_embeddings : M JSt unit :=
  fun s => let (r, w) := construct E (service s) in (r, mkJSt w (embedded s)).

Definition embed (text : string) : M JSt V :=
  fun s =>
    let (r, w) := embed_query E text (service s) in
    (r, mkJSt w (embedded s ++ [text])%list).

(** The default [threshold=0.85] is left to the caller. *)
Definition semantic_agreement (text_a text_b : string) (threshold : F)
  : M JSt (bool * F) :=
  if negb (Py.truthy text_a) || negb (Py.truthy text_b) then
    ret (false, zero E)
  else
    _require_embeddings ;;
    new_embeddings ;;
    v_a <- embed text_a ;;
    v_b <- embed text_b ;;
    score <- lift (cosine_similarity E v_a v_b) ;;
    ret (ge E score threshold, score).

End Judge.

Arguments Embeddings W V F : clear implicits.
Arguments JSt W : clear implicits.

(** A scripted embedding service: the world counts the calls, every text
    embeds to its length, and the score of two vectors is 1 when they are
    equal and 0 otherwise. *)
Definition length_embeddings : Embeddings nat Z Z :=
  {| imported := true;
     import_error := EmptyString;
     construct := fun w => (Ok tt, w);
     embed_query := fun t w => (Ok (Z.of_nat (String.length t)), S w);
     cosine_similarity := fun a b => Ok (if Z.eqb a b then 1%Z else 0%Z);
     zero := 0%Z;
     ge := Z.geb |}.

End Metrics.

(* ===================================================================== *)
(** * HTML report: [_escape_html] *)
(* ===================================================================== *)

Module Report.

(** [s.replace(old, new)] for a one-character [old]. *)
Fixpoint replace_char (old : ascii) (new : string) (s : string) : string :=
  match s with
  | EmptyString => EmptyString
  | String c s' =>
      if Ascii.eqb c old then new ++ replace_char old new s'
      else String c (replace_char old new s')
  end.

Definition _escape_html (s : string) : string :=
  replace_char ">" "&gt;" (replace_char "<" "&lt;" (replace_char "&" "&amp;" s)).

End Report.

(* ===================================================================== *)
(** * Visible labels: [BrowserController.list_buttons] *)
(* ===================================================================== *)

Module Buttons.

(** What [list_buttons] reads of an element. *)
Record Element : Type := mkElement {
  is_visible : bool;
  inner_text : string;
  value : option string;         (* [get_attribute("value")] *)
  aria_label : option string;    (* [get_attribute("aria-label")] *)
  title : option string          (* [get_attribute("title")] *)
}.

(** The elements a locator matches, in document order; [None] stands for an
    element at which a Playwright call raises, which ends the walk of its
    locator ([except Exception: pass]).  A locator whose [count()] raises is
    a bucket that starts with [None]. *)
Definition Bucket : Type := list (option Element).

Record Snapshot : Type := mkSnapshot {
  buttons : Bucket;      (* [get_by_role("button")] *)
  links : Bucket;        (* [get_by_role("link")] *)
  inputs : Bucket;       (* [input[type='submit'], input[type='button']] *)
  labels : Bucket        (* [locator("label")] *)
}.

(** [(a or "").strip()] *)
Definition attr (a : option string) : string :=
  Py.strip (match a with Some s => s | None => EmptyString end).

(** [(aria-label or "").strip() or (title or "").strip()] *)
Definition fallback_label (e : Element) : string :=
  Py.str_or (attr (aria_label e)) (attr (title e)).

(** The label of a button or link. *)
Definition role_label (e : Element) : string :=
  let txt := Py.strip (inner_text e) in
  if Py.truthy txt then txt else fallback_label e.

(** The label of a submit or button input. *)
Definition input_label (e : Element) : string :=
  let txt := attr (value e) in
  if Py.truthy txt then txt else fallback_label e.

(** The label of a [label] element. *)
Definition label_label (e : Element) : string := Py.strip (inner_text e).

(** One [for i in range(n)] walk inside its [try]. *)
Fixpoint collect (label_of : Element -> string) (bucket : Bucket) : list string :=
  match bucket with
  | [] => []
  | None :: _ => []
  | Some e :: rest =>
      if negb (is_visible e) then collect label_of rest
      else
        let txt := label_of e in
        if Py.truthy txt then txt :: collect label_of rest
        else collect label_of rest
  end.

(** "dedupe preserving order": [seen] is the set of labels already kept. *)
Fixpoint dedupe_from (seen : list string) (labels : list string) : list string :=
  match labels with
  | [] => []
  | t :: rest =>
      if Py.mem t seen then dedupe_from seen rest
      else t :: dedupe_from (t :: seen) rest
  end.

Definition dedupe (labels : list string) : list string := dedupe_from [] labels.

Definition list_buttons (snap : Snapshot) : list string :=
  dedupe (collect role_label (buttons snap)
          ++ collect role_label (links snap)
          ++ collect input_label (inputs snap)
          ++ collect label_label (labels snap))%list.

End Buttons.

(* ===================================================================== *)
(** * Model evaluation: [evaluate_predictions], [precision_recall_f1] *)
(* ===================================================================== *)

Module Eval.

(** A row of [csv.DictReader]: field names to values; a short line leaves
    its missing fields [None]. *)
Definition Row : Type := list (string * option string).

Fixpoint lookup (k : string) (row : Row) : option (option string) :=
  match row with
  | [] => None
  | (k', v) :: rest => if String.eqb k' k then Some v else lookup k rest
  end.

(** [row[k].strip()] *)
Definition field (row : Row) (k : string) : Res string :=
  match lookup k row with
  | None => Raise (Exception ("KeyError: '" ++ k ++ "'"))
  | Some None =>
      Raise (Exception "AttributeError: 'NoneType' object has no attribute 'strip'")
  | Some (Some v) => Ok (Py.strip v)
  end.

Record Counts : Type := mkCounts {
  tp : Z;
  fp : Z;
  fn : Z
}.

(** The body of [for row in reader]. *)
Definition count_row (c : Counts) (row : Row) : Res Counts :=
  match field row "y_true" with
  | Raise e => Raise e
  | Ok yt =>
      match field row "y_pred" with
      | Raise e => Raise e
      | Ok yp =>
          Ok (if String.eqb yp "1" && String.eqb yt "1"
              then mkCounts (tp c + 1) (fp c) (fn c)
              else if String.eqb yp "1" && negb (String.eqb yt "1")
              then mkCounts (tp c) (fp c + 1) (fn c)
              else if negb (String.eqb yp "1") && String.eqb yt "1"
              then mkCounts (tp c) (fp c) (fn c + 1)
              else c)
      end
  end.

Fixpoint count_rows (c : Counts) (rows : list Row) : Res Counts :=
  match rows with
  | [] => Ok c
  | row :: rest =>
      match count_row c row with
      | Raise e => Raise e
      | Ok c' => count_rows c' rest
      end
  end.

Section Metrics.

(** Python floats, as far as [precision_recall_f1] uses them. *)
Context {F : Type}.

Record Floats : Type := mkFloats {
  int_div : Z -> Z -> Res F;      (* [a / b] on ints *)
  of_int : Z -> F;                (* the int operand of [2 * precision] *)
  f_add : F -> F -> F;
  f_mul : F -> F -> F;
  f_div : F -> F -> Res F;        (* [x / y] on floats *)
  f_zero : F;                     (* [0.0] *)
  f_truthy : F -> bool            (* [bool(x)] *)
}.

Variable A : Floats.

(** [{"precision": .., "recall": .., "f1": ..}] *)
Record Prf : Type := mkPrf {
  precision : F;
  recall : F;
  f1 : F
}.

Definition precision_recall_f1 (tp fp fn : Z) : Res Prf :=
  match (if Z.eqb (tp + fp) 0 then Ok (f_zero A) else int_div A tp (tp + fp)) with
  | Raise e => Raise e
  | Ok precision =>
      match (if Z.eqb (tp + fn) 0 then Ok (f_zero A) else int_div A tp (tp + fn)) with
      | Raise e => Raise e
      | Ok recall =>
          match (if f_truthy A (f_add A precision recall)
                 then f_div A (f_mul A (f_mul A (of_int A 2) precision) recall)
                              (f_add A precision recall)
                 else Ok (f_zero A)) with
          | Raise e => Raise e
          | Ok f1 => Ok (mkPrf precision recall f1)
          end
      end
  end.

(** [opened] is what [open] and [csv.DictReader] make of [csv_path]: the
    rows, or the exception that ends the function. *)
Definition evaluate_predictions (opened : Res (list Row)) : Res Prf :=
  match opened with
  | Raise e => Raise e
  | Ok rows =>
      match count_rows (mkCounts 0 0 0) rows with
      | Raise e => Raise e
      | Ok c => precision_recall_f1 (tp c) (fp c) (fn c)
      end
  end.

End Metrics.

Arguments Floats F : clear implicits.
Arguments Prf F : clear implicits.

(** Exact rational arithmetic as an instance, for examples. *)
Definition exact : Floats (Z * Z) :=
  {| int_div := fun a b =>
       if Z.eqb b 0 then Raise (Exception "ZeroDivisionError") else Ok (a, b);
     of_int := fun n => (n, 1%Z);
     f_add := fun x y => (fst x * snd y + fst y * snd x, snd x * snd y)%Z;
     f_mul := fun x y => (fst x * fst y, snd x * snd y)%Z;
     f_div := fun x y =>
       if Z.eqb (fst y) 0 then Raise (Exception "ZeroDivisionError")
       else Ok (fst x * snd y, snd x * fst y)%Z;
     f_zero := (0%Z, 1%Z);
     f_truthy := fun x => negb (Z.eqb (fst x) 0) |}.

End Eval.

(* ===================================================================== *)
(** * What the specification says, in its own words *)
(* ===================================================================== *)

Module Spec.
Import Loader Compiler Engine.




(** The error kinds of the loader. *)
Inductive ErrorKind : Type :=
| FileNotFoundKind
| UnsupportedFormatKind
| MissingColumnsKind
| OtherKind.

Definition kind_of (e : exn) : ErrorKind :=
  match e with
  | FileNotFoundError _ => FileNotFoundKind
  | ValueError m =>
      if String.prefix "Unsupported transcript extension" m then UnsupportedFormatKind
      else if String.prefix "Expected columns" m then MissingColumnsKind
      else OtherKind
  | _ => OtherKind
  end.




(** Log entries by what they record. *)
Definition is_answer_event (category : string) (e : Event) : bool :=
  String.eqb (ev_role e) "action"
  && String.prefix ("Answered '" ++ category ++ "' -> ") (ev_text e).

Definition is_idle_event (e : Event) : bool :=
  String.eqb (ev_role e) "info"
  && String.eqb (ev_text e) "No matching buttons or text left; pausing.".

(** An entry that records an executed action: one of the answers logged
    under the role "action", or a typed free text, logged as the user
    "You". *)
Definition is_action_event (e : Event) : bool :=
  String.eqb (ev_role e) "action"
  || (String.eqb (ev_role e) "user" && String.eqb (ev_agent e) "You").

Definition count_events (f : Event -> bool) (l : list Event) : nat :=
  length (filter f l).

(** The entry Rule P logs. *)
Definition is_progress_event (e : Event) : bool :=
  String.eqb (ev_role e) "action" && String.prefix "Progressed via '" (ev_text e).

(** Ticks begun: the loop alone waits for network idle with 4000 ms. *)
Definition is_tick_start (c : Call) : bool :=
  match c with
  | CWaitNetworkIdle t => Z.eqb t 4000
  | _ => false
  end.

Definition ticks (cs : list Call) : nat := length (filter is_tick_start cs).

Definition is_answer_call (c : Call) : bool :=
  match c with CAnswerChoice _ _ => true | _ => false end.

Definition is_scroll_call (c : Call) : bool :=
  match c with CScrollDown _ => true | _ => false end.

(** Calls any helper may make without touching the rule chain. *)
Definition plumbing (c : Call) : bool :=
  match c with
  | CSettle _ | CScreenshot _ | CTrySendMessage _ | CClickButtonByText _ _
  | CCurrentButtons | CLogToExcel _ _ _ | CClickAndLog _ _ | CTypeAndLog _
  | CSafeScreenshot _ | CObserveCurrentButtons => true
  | _ => false
  end.

(** Calls made inside a tick, after its leading wait. *)
Definition in_tick (c : Call) : bool :=
  plumbing c || is_answer_call c || is_scroll_call c.

Section Frames.
Context {W : Type}.

(** [m] moves every state along [R]. *)
Definition evolves {A} (R : St W -> St W -> Prop) (m : M (St W) A) : Prop :=
  forall s, R s (snd (m s)).

(** Only the world and the call log change, and the calls added satisfy
    [ok]. *)
Definition inert_rel (ok : Call -> bool) (s s' : St W) : Prop :=
  exists w cs,
    s' = mkSt w (calls s ++ cs)%list (handles s) (transcript s)
              (pending_steps s) (answered s)
    /\ forallb ok cs = true.

(** The call log grows by calls that satisfy [ok]. *)
Definition log_rel (ok : Call -> bool) (s s' : St W) : Prop :=
  exists cs, calls s' = (calls s ++ cs)%list /\ forallb ok cs = true.

(** "A category transitions false to true at most once, never reset":
    between [s] and [s'] the flag of the category is not reset, and the log
    gains one answer event of the category exactly when the flag goes from
    false to true, none otherwise. *)
Definition Once (flag : Answered -> bool) (category : string) (s s' : St W) : Prop :=
  let n := count_events (is_answer_event category) (transcript s) in
  let n' := count_events (is_answer_event category) (transcript s') in
  (flag (answered s) = true -> flag (answered s') = true /\ n' = n)
  /\ (flag (answered s) = false ->
      (flag (answered s') = false /\ n' = n)
      \/ (flag (answered s') = true /\ n' = S n)).

Definition Progress (s s' : St W) : Prop :=
  Once term_end "term end" s s' /\ Once occupancy "occupancy" s s'.

(** [m] returns normally from every state. *)
Definition total {A} (m : M (St W) A) : Prop :=
  forall s, exists a, fst (m s) = Ok a.

Definition succeeds {A} (op : W -> Res A * W) : Prop :=
  forall w, exists a, fst (op w) = Ok a.

(** A host that honours the collaborator contract: no step raises, the
    load-state wait and the language model apart, which the program
    guards. *)
Record Reliable (H : Host W) : Prop := mkReliable {
  ok_mkdir : forall d, succeeds (mkdir H d);
  ok_pw_start : succeeds (pw_start H);
  ok_chromium_launch : succeeds (chromium_launch H);
  ok_new_context : succeeds (new_context H);
  ok_new_page : succeeds (new_page H);
  ok_page_goto : forall u, succeeds (page_goto H u);
  ok_wait_for_timeout : forall t, succeeds (wait_for_timeout H t);
  ok_mouse_wheel : forall x y, succeeds (mouse_wheel H x y);
  ok_page_screenshot : forall p, succeeds (page_screenshot H p);
  ok_context_close : succeeds (context_close H);
  ok_browser_close : succeeds (browser_close H);
  ok_pw_stop : succeeds (pw_stop H);
  ok_try_send_message : forall m, succeeds (dom_try_send_message H m);
  ok_click_button_by_text : forall t e, succeeds (dom_click_button_by_text H t e);
  ok_list_buttons : succeeds (dom_list_buttons H);
  ok_make_factory : forall c, succeeds (make_factory H c);
  ok_excel_log_message : forall a r c, succeeds (excel_log_message H a r c);
  ok_model_client_close : succeeds (model_client_close H);
  ok_write_report : forall t p i n, succeeds (write_report H t p i n)
}.

End Frames.

End Spec.

(* ===================================================================== *)
(** * Vocabulary of the further properties *)
(* ===================================================================== *)

Module Laws.
Import Loader Compiler Engine Spec.




(** A turn whose text names an occupancy choice, a term-end choice. *)
Definition mentions_occupancy (t : Turn) : bool :=
  Py.contains "live in it" (Py.lower (text t))
  || Py.contains "rent it out" (Py.lower (text t)).

Definition mentions_term_end (t : Turn) : bool :=
  let txt := Py.lower (text t) in
  Py.contains "6+ months" txt
  || Py.contains "3-6 months" txt
  || Py.contains ("3 " ++ EN_DASH ++ " 6 months") txt
  || Py.contains ("3" ++ EN_DASH ++ "6 months") txt
  || Py.contains "less than 3 months" txt
  || Py.contains "already ended" txt.




(** Reading the three entities of [_escape_html] back, left to right. *)
Fixpoint unescape_html (s : string) : string :=
  match s with
  | EmptyString => EmptyString
  | String c r =>
      if Ascii.eqb c "&" then
        match r with
        | String "a" (String "m" (String "p" (String ";" r'))) =>
            String "&" (unescape_html r')
        | String "l" (String "t" (String ";" r')) => String "<" (unescape_html r')
        | String "g" (String "t" (String ";" r')) => String ">" (unescape_html r')
        | _ => String c (unescape_html r)
        end
      else String c (unescape_html r)
  end.

(** What one character becomes in the report. *)
Definition entity (c : ascii) : string :=
  if Ascii.eqb c "&" then "&amp;"
  else if Ascii.eqb c "<" then "&lt;"
  else if Ascii.eqb c ">" then "&gt;"
  else String c EmptyString.



(** The column [k] of a row reads, once stripped, as [v]. *)
Definition says (row : Eval.Row) (k v : string) : bool :=
  match Eval.field row k with
  | Ok x => String.eqb x v
  | Raise _ => false
  end.

(** A row that has both columns, each with a value. *)
Definition well_formed (row : Eval.Row) : bool :=
  match Eval.field row "y_true", Eval.field row "y_pred" with
  | Ok _, Ok _ => true
  | _, _ => false
  end.

Definition count_of (f : Eval.Row -> bool) (rows : list Eval.Row) : Z :=
  Z.of_nat (length (filter f rows)).

(** [l'] is [l] with some elements deleted, the order kept. *)
Inductive Subseq {A : Type} : list A -> list A -> Prop :=
| subseq_nil : Subseq [] []
| subseq_keep : forall x l' l, Subseq l' l -> Subseq (x :: l') (x :: l)
| subseq_drop : forall x l' l, Subseq l' l -> Subseq l' (x :: l).






(** A click asked of the controller. *)
Definition is_click_call (c : Call) : bool :=
  match c with CClickButtonByText _ _ => true | _ => false end.

(** Plumbing and scrolling: everything a tick may call but [answer_choice]. *)
Definition quiet (c : Call) : bool := plumbing c || is_scroll_call c.

Section Relations.
Context {W : Type}.

(** The part [proj] of the state is left as it is. *)
Definition Keeps {X : Type} (proj : St W -> X) (s s' : St W) : Prop :=
  proj s' = proj s.

(** The pending queue loses actions and gains none. *)
Definition QueueShrinks (s s' : St W) : Prop :=
  Subseq (pending_steps s') (pending_steps s).

(** The log is extended, and by no more entries than ticks were begun. *)
Definition LogGrows (s s' : St W) : Prop :=
  exists es cs,
    transcript s' = (transcript s ++ es)%list
    /\ calls s' = (calls s ++ cs)%list
    /\ length es <= ticks cs.

(** What the rule chain leaves behind, whatever rule fired. *)
Definition Settled (visible : list string) (s : St W) (r : Res Flow * St W) : Prop :=
  exists cs,
    calls (snd r) = (calls s ++ cs)%list
    /\ ((exists l cs', cs = CAnswerChoice l false :: cs' /\ forallb plumbing cs' = true)
        \/ forallb quiet cs = true)
    /\ handles (snd r) = handles s
    /\ (pending_steps (snd r) = pending_steps s
        \/ (exists lab, pop_matching_click visible (pending_steps s)
                        = Some (lab, pending_steps (snd r)))
        \/ (exists t, pop_matching_click visible (pending_steps s) = None
                      /\ pop_next_free_text (pending_steps s)
                         = Some (t, pending_steps (snd r))))
    /\ ((exists e, fst r = Raise e /\ transcript (snd r) = transcript s)
        \/ (exists f ev, fst r = Ok f
                         /\ transcript (snd r) = (transcript s ++ [ev])%list)).

End Relations.

End Laws.

(* ===================================================================== *)
(** * Properties of the action compiler *)
(* ===================================================================== *)

Module CompilerFacts.
Import Loader Compiler Spec.

Ltac each_char c := destruct c as [[] [] [] [] [] [] [] []]; vm_compute; try reflexivity.

Lemma lower_char_idem (c : ascii) : Py.lower_char (Py.lower_char c) = Py.lower_char c.
Proof. each_char c. Qed.



Lemma lower_idem (s : string) : Py.lower (Py.lower s) = Py.lower s.
Proof. induction s; simpl; [reflexivity | now rewrite lower_char_idem, IHs]. Qed.















End CompilerFacts.

Module CompilerClaims.
Import Loader Compiler Spec CompilerFacts.






End CompilerClaims.

(* ===================================================================== *)
(** * Properties of the transcript loader *)
(* ===================================================================== *)

Module LoaderFacts.
Import Loader Spec.





End LoaderFacts.

Module LoaderClaims.
Import Loader Spec LoaderFacts Stub.




End LoaderClaims.

(* ===================================================================== *)
(** * Properties of the semantic judge *)
(* ===================================================================== *)

Module MetricsClaims.
Import Metrics.

(** C3.  [semantic_agreement] returns [(False, 0.0)] and leaves the
    embedding service untouched, with no [embed_query] issued, whenever
    either text is empty.  Otherwise, the service being importable and
    answering, it embeds [text_a] then [text_b], once each, takes their
    cosine similarity as the score and returns
    [(score >= threshold, score)].  In particular the judge on the empty
    text and "anything" returns [(False, 0.0)] with no embedding call. *)
Theorem semantic_agreement_behaviour :
  forall (W V F : Type) (E : Embeddings W V F)
         (text_a text_b : string) (threshold : F) (s : JSt W),
    ((text_a = EmptyString \/ text_b = EmptyString) ->
       semantic_agreement E text_a text_b threshold s
       = (Ok (false, zero E), s))
    /\ (text_a <> EmptyString -> text_b <> EmptyString ->
        imported E = true ->
        forall w1 w2 w3 v_a v_b score,
          construct E (service s) = (Ok tt, w1) ->
          embed_query E text_a w1 = (Ok v_a, w2) ->
          embed_query E text_b w2 = (Ok v_b, w3) ->
          cosine_similarity E v_a v_b = Ok score ->
          semantic_agreement E text_a text_b threshold s
          = (Ok (ge E score threshold, score),
             mkJSt w3 (embedded s ++ [text_a; text_b])%list))
    /\ semantic_agreement E EmptyString "anything" threshold s
       = (Ok (false, zero E), s).
Proof.
  intros W V F E text_a text_b threshold s.
  split; [|split].
  - intros [-> | ->]; unfold semantic_agreement; cbn [Py.truthy negb orb].
    + reflexivity.
    + now rewrite orb_true_r.
  - intros Ha Hb Himp w1 w2 w3 v_a v_b score Hc Hea Heb Hcos.
    unfold semantic_agreement.
    destruct text_a as [|c1 ta]; [congruence|].
    destruct text_b as [|c2 tb]; [congruence|].
    cbn [Py.truthy negb orb].
    unfold bind, _require_embeddings, new_embeddings, embed, lift, ret.
    rewrite Himp. cbn [service embedded].
    rewrite Hc. cbn [service embedded]. rewrite Hea.
    cbn [service embedded]. rewrite Heb. rewrite Hcos.
    rewrite <- app_assoc. reflexivity.
  - reflexivity.
Qed.

(** C3 on the scripted service: "in 24 hours" against "after 1 day",
    both of length 11, at threshold 1. *)
Lemma semantic_agreement_behaviour_witness :
  "in 24 hours" <> EmptyString /\ "after 1 day" <> EmptyString
  /\ semantic_agreement length_embeddings "in 24 hours" "after 1 day" 1%Z
       (mkJSt 0 [])
     = (Ok (true, 1%Z), mkJSt 2 ["in 24 hours"; "after 1 day"]).
Proof.
  assert (Ha : "in 24 hours" <> EmptyString) by discriminate.
  assert (Hb : "after 1 day" <> EmptyString) by discriminate.
  split; [exact Ha|]. split; [exact Hb|].
  destruct (semantic_agreement_behaviour nat Z Z length_embeddings
              "in 24 hours" "after 1 day" 1%Z (mkJSt 0 [])) as (_ & Hscore & _).
  apply (Hscore Ha Hb eq_refl 0 1 2 11%Z 11%Z 1%Z); reflexivity.
Defined.

End MetricsClaims.

(* ===================================================================== *)
(** * Reasoning about the runner *)
(* ===================================================================== *)

Module EngineFacts.
Import Compiler Engine Spec.

Section Monad.
Context {W : Type}.
Implicit Types s : St W.

Lemma inert_refl (ok : Call -> bool) s : inert_rel ok s s.
Proof.
  exists (world s), []. rewrite app_nil_r. split; [now destruct s | reflexivity].
Qed.

Lemma inert_trans (ok : Call -> bool) s1 s2 s3 :
  inert_rel ok s1 s2 -> inert_rel ok s2 s3 -> inert_rel ok s1 s3.
Proof.
  intros (w1 & c1 & -> & H1) (w2 & c2 & -> & H2). cbn.
  exists w2, (c1 ++ c2)%list. rewrite app_assoc, forallb_app, H1, H2. now split.
Qed.

#[local] Instance inert_preorder (ok : Call -> bool) : PreOrder (@inert_rel W ok).
Proof. split; [intros s; apply inert_refl | intros a b c; apply inert_trans]. Qed.

#[local] Instance log_preorder (ok : Call -> bool) : PreOrder (@log_rel W ok).
Proof.
  split.
  - intros s. exists []. now rewrite app_nil_r.
  - intros a b c (c1 & E1 & H1) (c2 & E2 & H2).
    exists (c1 ++ c2)%list. now rewrite E2, E1, app_assoc, forallb_app, H1, H2.
Qed.

Lemma inert_log (ok : Call -> bool) s s' : inert_rel ok s s' -> log_rel ok s s'.
Proof. intros (w & cs & -> & Hok). now exists cs. Qed.

Lemma inert_weaken (ok ok' : Call -> bool) s s' :
  (forall c, ok c = true -> ok' c = true) ->
  inert_rel ok s s' -> inert_rel ok' s s'.
Proof.
  intros Hw (w & cs & -> & Hok). exists w, cs. split; [reflexivity|].
  rewrite forallb_forall in *. auto.
Qed.

Section Evolves.
Variable R : St W -> St W -> Prop.
Context {PR : PreOrder R}.

Lemma evolves_ret {A} (a : A) : evolves R (ret a).
Proof. intros s. reflexivity. Qed.

Lemma evolves_raise {A} (e : exn) : evolves R (@raise _ A e).
Proof. intros s. reflexivity. Qed.

Lemma evolves_get : evolves R get.
Proof. intros s. reflexivity. Qed.

Lemma evolves_lift {A} (r : Res A) : evolves R (lift r).
Proof. intros s. reflexivity. Qed.

Lemma evolves_bind {A B} (m : M (St W) A) (f : A -> M (St W) B) :
  evolves R m -> (forall a, evolves R (f a)) -> evolves R (bind m f).
Proof.
  intros Hm Hf s. unfold bind. specialize (Hm s).
  destruct (m s) as [[a|e] s1]; cbn in *; [|exact Hm].
  etransitivity; [exact Hm | apply Hf].
Qed.

Lemma evolves_try_except {A} (m : M (St W) A) (h : exn -> M (St W) A) :
  evolves R m -> (forall e, evolves R (h e)) -> evolves R (try_except m h).
Proof.
  intros Hm Hh s. unfold try_except. specialize (Hm s).
  destruct (m s) as [[a|e] s1]; cbn in *; [exact Hm|].
  etransitivity; [exact Hm | apply Hh].
Qed.

Lemma evolves_try_finally {A} (m : M (St W) A) (c : M (St W) unit) :
  evolves R m -> evolves R c -> evolves R (try_finally m c).
Proof.
  intros Hm Hc s. unfold try_finally. specialize (Hm s).
  destruct (m s) as [r s1]. specialize (Hc s1).
  destruct (c s1) as [[u|e] s2]; cbn in *; etransitivity; eauto.
Qed.

End Evolves.

Lemma total_ret {A} (a : A) : @total W A (ret a).
Proof. intros s. now exists a. Qed.

Lemma total_get : @total W _ get.
Proof. intros s. now exists s. Qed.

Lemma total_bind {A B} (m : M (St W) A) (f : A -> M (St W) B) :
  total m -> (forall a, total (f a)) -> total (bind m f).
Proof.
  intros Hm Hf s. unfold bind. destruct (Hm s) as [a Ha].
  destruct (m s) as [[a'|e] s1]; cbn in Ha; [|discriminate Ha].
  apply Hf.
Qed.

Lemma total_try_except {A} (m : M (St W) A) (h : exn -> M (St W) A) :
  (forall e, total (h e)) -> total (try_except m h).
Proof.
  intros Hh s. unfold try_except.
  destruct (m s) as [[a|e] s1]; [now exists a | apply Hh].
Qed.

Lemma total_try_finally {A} (m : M (St W) A) (c : M (St W) unit) :
  total m -> total c -> total (try_finally m c).
Proof.
  intros Hm Hc s. unfold try_finally. destruct (Hm s) as [a Ha].
  destruct (m s) as [r s1]. cbn in Ha. subst r.
  destruct (Hc s1) as [u Hu]. destruct (c s1) as [[u'|e] s2]; cbn in Hu;
    [now exists a | discriminate Hu].
Qed.

Lemma total_modify (f : St W -> St W) : total (modify f).
Proof. intros s. now exists tt. Qed.

End Monad.

#[export] Existing Instance inert_preorder.
#[export] Existing Instance log_preorder.

(** Steps through a computation built from [bind], [try_except], [if] and
    [match], leaving one goal per helper it does not know. *)
Ltac evolve_with known :=
  repeat lazymatch goal with
  | |- PreOrder _ => typeclasses eauto
  | |- forall _, _ => intros ?
  | |- evolves _ (bind _ _) => apply evolves_bind
  | |- evolves _ (ret _) => apply evolves_ret
  | |- evolves _ (raise _) => apply evolves_raise
  | |- evolves _ get => apply evolves_get
  | |- evolves _ (lift _) => apply evolves_lift
  | |- evolves _ (try_except _ _) => apply evolves_try_except
  | |- evolves _ (try_finally _ _) => apply evolves_try_finally
  | |- evolves _ (when _ _) => unfold when
  | |- evolves _ (if ?b then _ else _) => destruct b
  | |- evolves _ (match ?x with _ => _ end) => destruct x
  | |- evolves _ _ => known
  end.

Ltac total_with known :=
  repeat lazymatch goal with
  | |- forall _, _ => intros ?
  | |- total (bind _ _) => apply total_bind
  | |- total (ret _) => apply total_ret
  | |- total get => apply total_get
  | |- total (modify _) => apply total_modify
  | |- total (try_except _ _) => apply total_try_except
  | |- total (try_finally _ _) => apply total_try_finally
  | |- total (when _ _) => unfold when
  | |- total (if ?b then _ else _) => destruct b
  | |- total (match ?x with _ => _ end) => destruct x
  | |- total _ => known
  end.

Section Helpers.
Context {W : Type} (H : Host W).
Implicit Types s : St W.

(** *** The primitives *)

Lemma inert_prim (ok : Call -> bool) {A} (op : W -> Res A * W) :
  evolves (inert_rel ok) (prim op).
Proof.
  intros s. unfold prim. destruct (op (world s)) as [r w]. cbn.
  exists w, []. now rewrite app_nil_r.
Qed.

Lemma inert_ask (ok : Call -> bool) {A} (op : W -> A * W) :
  evolves (inert_rel ok) (ask op).
Proof.
  intros s. unfold ask. destruct (op (world s)) as [r w]. cbn.
  exists w, []. now rewrite app_nil_r.
Qed.

Lemma inert_enter (ok : Call -> bool) (c : Call) :
  ok c = true -> evolves (inert_rel ok) (@enter W c).
Proof.
  intros Hc s. exists (world s), [c]. cbn. now rewrite Hc.
Qed.

Lemma log_of_inert (ok : Call -> bool) {A} (m : M (St W) A) :
  evolves (inert_rel ok) m -> evolves (log_rel ok) m.
Proof. intros Hm s. apply inert_log, Hm. Qed.

Lemma log_modify (ok : Call -> bool) (f : St W -> St W) :
  (forall s, calls (f s) = calls s) -> evolves (log_rel ok) (modify f).
Proof. intros Hf s. exists []. cbn. now rewrite Hf, app_nil_r. Qed.

Lemma log_append_event (ok : Call -> bool) (e : Event) :
  evolves (log_rel ok) (@append_event W e).
Proof. intros s. exists []. cbn. now rewrite app_nil_r. Qed.

Lemma in_tick_of_plumbing {A} (m : M (St W) A) :
  evolves (inert_rel plumbing) m -> evolves (log_rel in_tick) m.
Proof.
  intros Hm s. apply inert_log. apply (inert_weaken plumbing); [|apply Hm].
  intros c Hc. unfold in_tick. now rewrite Hc.
Qed.

Lemma total_prim {A} (op : W -> Res A * W) : succeeds op -> total (prim op).
Proof.
  intros Hop s. unfold prim. destruct (Hop (world s)) as [a Ha].
  destruct (op (world s)) as [r w]. now exists a.
Qed.

Lemma total_ask {A} (op : W -> A * W) : total (ask op).
Proof. intros s. unfold ask. destruct (op (world s)) as [a w]. now exists a. Qed.

Lemma total_enter (c : Call) : total (@enter W c).
Proof. intros s. now exists tt. Qed.

Lemma total_append_event (e : Event) : total (@append_event W e).
Proof. intros s. now exists tt. Qed.

Ltac basic :=
  first [ apply inert_prim | apply inert_ask | apply inert_enter; reflexivity ].

(** *** Helpers that only touch the world and the call log *)

Lemma settle_inert ms : evolves (inert_rel plumbing) (settle H ms).
Proof. unfold settle. evolve_with basic. Qed.

Lemma screenshot_inert name : evolves (inert_rel plumbing) (screenshot H name).
Proof. unfold screenshot. evolve_with basic. Qed.

Lemma try_send_message_inert m : evolves (inert_rel plumbing) (try_send_message H m).
Proof. unfold try_send_message. evolve_with basic. Qed.

Lemma click_button_by_text_inert t e :
  evolves (inert_rel plumbing) (click_button_by_text H t e).
Proof. unfold click_button_by_text. evolve_with basic. Qed.

Lemma current_buttons_inert : evolves (inert_rel plumbing) (current_buttons H).
Proof. unfold current_buttons. evolve_with basic. Qed.

Lemma log_to_excel_inert a r c : evolves (inert_rel plumbing) (log_to_excel H a r c).
Proof. unfold log_to_excel. evolve_with basic. Qed.

Lemma click_and_log_inert l e : evolves (inert_rel plumbing) (click_and_log H l e).
Proof.
  unfold click_and_log.
  evolve_with ltac:(first [ basic | apply click_button_by_text_inert
                          | apply log_to_excel_inert | apply screenshot_inert ]).
Qed.

Lemma type_and_log_inert m : evolves (inert_rel plumbing) (type_and_log H m).
Proof.
  unfold type_and_log.
  evolve_with ltac:(first [ basic | apply try_send_message_inert
                          | apply log_to_excel_inert | apply screenshot_inert ]).
Qed.

Lemma observe_current_buttons_inert :
  evolves (inert_rel plumbing) (observe_current_buttons H).
Proof.
  unfold observe_current_buttons.
  evolve_with ltac:(first [ basic | apply current_buttons_inert
                          | apply log_to_excel_inert ]).
Qed.

Lemma _safe_screenshot_inert n : evolves (inert_rel plumbing) (_safe_screenshot H n).
Proof.
  unfold _safe_screenshot.
  evolve_with ltac:(first [ basic | apply screenshot_inert ]).
Qed.

(** What [answer_choice] does after it is entered. *)
Lemma answer_choice_body_inert l pc :
  evolves (inert_rel plumbing)
    (if negb pc then
       sent <- type_and_log H l ;;
       if sent then ret "typed"
       else ok <- click_and_log H l false ;; ret (if ok then "clicked" else "failed")
     else
       ok <- click_and_log H l false ;;
       if ok then ret "clicked"
       else sent <- type_and_log H l ;; ret (if sent then "typed" else "failed")).
Proof.
  evolve_with ltac:(first [ apply type_and_log_inert | apply click_and_log_inert ]).
Qed.

(** [answer_choice] logs its own entry first, then plumbing only. *)
Lemma answer_choice_run l pc s :
  exists r w cs,
    answer_choice H l pc s
    = (r, mkSt w (calls s ++ CAnswerChoice l pc :: cs)%list (handles s)
                (transcript s) (pending_steps s) (answered s))
    /\ forallb plumbing cs = true.
Proof.
  unfold answer_choice, bind at 1. cbn [enter].
  match goal with |- context [?body (mkSt ?w ?c ?h ?t ?p ?a)] =>
    destruct (answer_choice_body_inert l pc (mkSt w c h t p a)) as (w' & cs & E & Hok)
  end.
  cbn in E.
  match goal with |- context [?body ?st] =>
    match type of E with snd (?body' _) = _ => change (body st) with (body' st) end
  end.
  destruct (_ : Res string * St W) as [r s1] eqn:Er in E |- *.
  cbn in E. subst s1. exists r, w', cs. rewrite <- app_assoc. now split.
Qed.

Lemma in_tick_weaken (cs : list Call) :
  forallb plumbing cs = true -> forallb in_tick cs = true.
Proof.
  rewrite !forallb_forall. intros Hp c Hc. unfold in_tick. now rewrite (Hp c Hc).
Qed.

Lemma ticks_in_tick (cs : list Call) : forallb in_tick cs = true -> ticks cs = 0.
Proof.
  unfold ticks. induction cs as [|c cs IH]; cbn; [reflexivity|].
  intros Hc. apply andb_true_iff in Hc as [Hc Hcs].
  destruct c; cbn in *; try discriminate Hc; auto.
Qed.

Lemma ticks_app (c1 c2 : list Call) : ticks (c1 ++ c2) = ticks c1 + ticks c2.
Proof. unfold ticks. now rewrite filter_app, length_app. Qed.

(** *** The call log of the loop *)

Lemma answer_choice_log l pc : evolves (log_rel in_tick) (answer_choice H l pc).
Proof.
  intros s. destruct (answer_choice_run l pc s) as (r & w & cs & E & Hok).
  rewrite E. cbn. exists (CAnswerChoice l pc :: cs). split; [reflexivity|].
  cbn. now apply in_tick_weaken.
Qed.

Ltac logged :=
  first [ apply log_of_inert; basic
        | apply log_append_event
        | apply log_modify; reflexivity
        | apply answer_choice_log
        | apply in_tick_of_plumbing;
          first [ apply settle_inert | apply observe_current_buttons_inert
                | apply type_and_log_inert | apply _safe_screenshot_inert ] ].

Lemma scroll_down_log px : evolves (log_rel in_tick) (scroll_down H px).
Proof. unfold scroll_down. evolve_with logged. Qed.

Lemma scroll_probe_log n : forall visible,
  evolves (log_rel in_tick) (scroll_probe H n visible).
Proof.
  induction n as [|n IH]; intros visible; cbn [scroll_probe].
  - evolve_with fail.
  - evolve_with ltac:(first [ apply scroll_down_log | apply IH | logged ]).
Qed.

Lemma decide_log prefs ts visible :
  evolves (log_rel in_tick) (decide H prefs ts visible).
Proof.
  unfold decide.
  evolve_with ltac:(first [ apply scroll_probe_log | logged ]).
Qed.

Lemma wait_network_idle_run t s :
  exists r w,
    wait_network_idle H t s
    = (r, mkSt w (calls s ++ [CWaitNetworkIdle t])%list (handles s)
                (transcript s) (pending_steps s) (answered s)).
Proof.
  assert (Hin : evolves (inert_rel (fun _ => false))
                  (try_except (prim (wait_for_load_state H t))
                     (fun _ => prim (wait_for_timeout H (Z.min 1500 t))))).
  { evolve_with ltac:(apply inert_prim). }
  unfold wait_network_idle, bind. cbn [enter].
  match goal with |- context [try_except ?a ?b ?st] =>
    specialize (Hin st); destruct (try_except a b st) as [r s1]
  end.
  destruct Hin as (w & cs & E & Hcs). cbn in E. subst s1.
  destruct cs as [|c cs]; [|discriminate Hcs]. rewrite app_nil_r.
  destruct r; eauto.
Qed.

(** A tick logs its leading wait, then calls of the tick only. *)
Lemma tick_run prefs s :
  exists cs,
    calls (snd (tick H prefs s)) = (calls s ++ CWaitNetworkIdle 4000 :: cs)%list
    /\ forallb in_tick cs = true.
Proof.
  unfold tick. unfold bind at 1.
  destruct (wait_network_idle_run 4000 s) as (r & w & E). rewrite E.
  destruct r as [u|e]; cbn [snd calls].
  - match goal with |- context [snd (?m ?st)] =>
      assert (Hrest : evolves (log_rel in_tick) m)
    end.
    { evolve_with ltac:(first [ apply decide_log | logged ]). }
    match goal with |- context [snd (?m ?st)] =>
      destruct (Hrest st) as (cs & Ecs & Hcs)
    end.
    cbn [calls] in Ecs. exists cs. rewrite Ecs, <- app_assoc. now split.
  - exists []. now split.
Qed.

Lemma main_loop_ticks prefs n : forall s,
  ticks (calls (snd (main_loop H n prefs s))) <= ticks (calls s) + n.
Proof.
  induction n as [|n IH]; intros s; cbn [main_loop].
  - cbn. lia.
  - unfold bind. destruct (tick_run prefs s) as (cs & E & Hcs).
    assert (Ht : ticks (calls (snd (tick H prefs s))) = ticks (calls s) + 1).
    { rewrite E, ticks_app. cbn. fold (ticks cs). rewrite (ticks_in_tick cs Hcs). lia. }
    destruct (tick H prefs s) as [[f|e] s1]; cbn [snd] in *.
    + destruct f.
      * specialize (IH s1). lia.
      * cbn. lia.
    + lia.
Qed.

End Helpers.

Section Answers.
Context {W : Type} (H : Host W).
Implicit Types s : St W.

Lemma count_events_app (f : Event -> bool) (l : list Event) (e : Event) :
  count_events f (l ++ [e]) = count_events f l + (if f e then 1 else 0).
Proof.
  unfold count_events. rewrite filter_app, length_app. cbn.
  now destruct (f e).
Qed.

Lemma once_refl flag category s : Once flag category s s.
Proof. unfold Once. split; intros Hf; auto. Qed.

Lemma once_trans flag category s1 s2 s3 :
  Once flag category s1 s2 -> Once flag category s2 s3 -> Once flag category s1 s3.
Proof.
  unfold Once. cbv zeta. intros [Ht1 Hf1] [Ht2 Hf2]. split; intros Hf.
  - destruct (Ht1 Hf) as [Hb E1]. destruct (Ht2 Hb) as [Hc E2].
    split; [exact Hc | congruence].
  - destruct (Hf1 Hf) as [[Hb E1] | [Hb E1]].
    + destruct (Hf2 Hb) as [[Hc E2] | [Hc E2]]; [left | right];
        (split; [exact Hc | congruence]).
    + destruct (Ht2 Hb) as [Hc E2]. right. split; [exact Hc | congruence].
Qed.

#[local] Instance progress_preorder : PreOrder (@Progress W).
Proof.
  split.
  - intros s. split; apply once_refl.
  - intros a b c [H1 H2] [H3 H4]. split; eapply once_trans; eauto.
Qed.

(** Whatever leaves the log and the flags alone is a step of [Progress]. *)
Lemma progress_same s s' :
  transcript s' = transcript s -> answered s' = answered s -> Progress s s'.
Proof.
  intros Et Ea. unfold Progress, Once. rewrite Et, Ea.
  split; split; intros Hf; auto.
Qed.

Lemma progress_of_inert (ok : Call -> bool) {A} (m : M (St W) A) :
  evolves (inert_rel ok) m -> evolves Progress m.
Proof.
  intros Hm s. destruct (Hm s) as (w & cs & -> & _). now apply progress_same.
Qed.

Lemma progress_modify_pending rest : evolves Progress (modify (@set_pending W rest)).
Proof. intros s. now apply progress_same. Qed.

(** Logging an entry that answers no category is a step of [Progress]. *)
Lemma progress_append_other (e : Event) :
  is_answer_event "term end" e = false ->
  is_answer_event "occupancy" e = false ->
  evolves Progress (@append_event W e).
Proof.
  intros H1 H2 s. unfold Progress, Once. cbn [append_event snd transcript answered].
  rewrite !count_events_app, H1, H2, !Nat.add_0_r.
  split; split; intros Hf; auto.
Qed.

(** The shared opening of Rules P, A, B, C and D: answer, take the
    screenshot, log one entry; then [k].  Either a helper raised, and the
    log and the flags are as before, or [k] runs with the entry logged. *)
Lemma answer_then {B} l n (ev : string -> string -> Event) (k : M (St W) B) s :
  exists w cs,
    forallb plumbing cs = true /\
    ((exists e,
        (how <- answer_choice H l false ;;
         shot <- _safe_screenshot H n ;;
         append_event (ev how shot) ;; k) s
        = (Raise e, mkSt w (calls s ++ CAnswerChoice l false :: cs)%list (handles s)
                         (transcript s) (pending_steps s) (answered s)))
     \/ (exists how shot,
        (how <- answer_choice H l false ;;
         shot <- _safe_screenshot H n ;;
         append_event (ev how shot) ;; k) s
        = k (mkSt w (calls s ++ CAnswerChoice l false :: cs)%list (handles s)
                  (transcript s ++ [ev how shot])%list (pending_steps s) (answered s)))).
Proof.
  set (prog := (how <- answer_choice H l false ;;
                shot <- _safe_screenshot H n ;;
                append_event (ev how shot) ;; k)).
  assert (Hc : prog s =
    match answer_choice H l false s with
    | (Ok how, s1) =>
        match _safe_screenshot H n s1 with
        | (Ok shot, s2) =>
            k (mkSt (world s2) (calls s2) (handles s2)
                    (transcript s2 ++ [ev how shot])%list
                    (pending_steps s2) (answered s2))
        | (Raise e, s2) => (Raise e, s2)
        end
    | (Raise e, s1) => (Raise e, s1)
    end).
  { unfold prog, bind.
    destruct (answer_choice H l false s) as [[how|e] s1]; [|reflexivity].
    destruct (_safe_screenshot H n s1) as [[shot|e] s2]; reflexivity. }
  rewrite Hc. clear Hc prog.
  destruct (answer_choice_run H l false s) as (r & w & cs & E & Hcs). rewrite E.
  destruct r as [how|e].
  - match goal with |- context [_safe_screenshot H n ?st] =>
      destruct (_safe_screenshot_inert H n st) as (w' & cs' & E' & Hcs');
      destruct (_safe_screenshot H n st) as [r' s1]
    end.
    cbn in E'. subst s1.
    exists w', (cs ++ cs')%list. split; [now rewrite forallb_app, Hcs, Hcs'|].
    rewrite <- !app_assoc. cbn [app].
    destruct r' as [shot|e].
    + right. exists how, shot. reflexivity.
    + left. exists e. reflexivity.
  - exists w, cs. split; [exact Hcs|]. left. exists e. reflexivity.
Qed.

Ltac progress_step :=
  first [ apply (progress_of_inert plumbing);
          first [ apply type_and_log_inert | apply _safe_screenshot_inert
                | apply settle_inert | apply observe_current_buttons_inert ]
        | apply (progress_of_inert in_tick);
          intros ?; apply inert_refl
        | apply progress_modify_pending
        | apply progress_append_other; reflexivity ].

Lemma progress_of_log_free {A} (m : M (St W) A) :
  (forall s, transcript (snd (m s)) = transcript s /\ answered (snd (m s)) = answered s) ->
  evolves Progress m.
Proof. intros Hm s. destruct (Hm s). now apply progress_same. Qed.

Lemma answer_choice_progress l pc : evolves Progress (answer_choice H l pc).
Proof.
  intros s. destruct (answer_choice_run H l pc s) as (r & w & cs & E & _).
  rewrite E. now apply progress_same.
Qed.

Lemma scroll_down_progress px : evolves Progress (scroll_down H px).
Proof.
  unfold scroll_down.
  evolve_with ltac:(first [ apply (progress_of_inert in_tick); apply inert_enter; reflexivity
                          | apply (progress_of_inert in_tick); apply inert_prim
                          | progress_step ]).
Qed.

Lemma scroll_probe_progress n : forall visible,
  evolves Progress (scroll_probe H n visible).
Proof.
  induction n as [|n IH]; intros visible; cbn [scroll_probe].
  - evolve_with fail.
  - evolve_with ltac:(first [ apply scroll_down_progress | apply IH | progress_step ]).
Qed.

Lemma term_end_event ts x shot :
  is_answer_event "term end" (action_event ts ("Answered 'term end' -> " ++ x) shot) = true.
Proof. unfold is_answer_event, action_event. cbn. now destruct x. Qed.

Lemma term_end_event_other ts x shot :
  is_answer_event "occupancy" (action_event ts ("Answered 'term end' -> " ++ x) shot) = false.
Proof. reflexivity. Qed.

Lemma occupancy_event ts x shot :
  is_answer_event "occupancy" (action_event ts ("Answered 'occupancy' -> " ++ x) shot) = true.
Proof. unfold is_answer_event, action_event. cbn. now destruct x. Qed.

Lemma occupancy_event_other ts x shot :
  is_answer_event "term end" (action_event ts ("Answered 'occupancy' -> " ++ x) shot) = false.
Proof. reflexivity. Qed.

(** The rule chain never resets a flag, and logs an answer of a category
    exactly when it sets the category's flag. *)
Lemma decide_progress prefs ts visible :
  evolves Progress (decide H prefs ts visible).
Proof.
  intros s. unfold decide.
  destruct (find_progress PROGRESS_BUTTONS visible) as [np|].
  { match goal with |- Progress ?s0 (snd (?m ?s0)) =>
      assert (Hev : evolves Progress m)
    end.
    { evolve_with ltac:(first [ apply answer_choice_progress | progress_step ]). }
    apply Hev. }
  unfold bind at 1. cbn [get].
  destruct (negb (term_end (answered s)) && (2 <=? count_common visible term_end_set)%nat)
    eqn:GA.
  { apply andb_true_iff in GA as [GA _]. apply negb_true_iff in GA.
    match goal with |- context [append_event (action_event ts (?pre ++ ?c ++ ?mid ++ _) _)] =>
      destruct (answer_then c "after-term-end-answer"
                  (fun how shot => action_event ts (pre ++ c ++ mid ++ how) shot)
                  (modify (fun s => set_answered (mkAnswered true (occupancy (answered s))) s) ;;
                   ret Continue) s)
        as (w & cs & _ & [[e E] | (how & shot & E)])
    end; cbv beta in E; rewrite E; clear E.
    - now apply progress_same.
    - unfold bind, modify, ret, set_answered. cbn [snd].
      unfold Progress, Once. cbn [transcript answered term_end occupancy].
      rewrite !count_events_app, term_end_event, term_end_event_other, GA.
      split; split; intros Hf; try discriminate Hf.
      + right. split; [reflexivity | lia].
      + split; [exact Hf | lia].
      + left. split; [exact Hf | lia]. }
  destruct (negb (occupancy (answered s)) && (1 <=? count_common visible occupancy_set)%nat)
    eqn:GB.
  { apply andb_true_iff in GB as [GB _]. apply negb_true_iff in GB.
    match goal with |- context [append_event (action_event ts (?pre ++ ?c ++ ?mid ++ _) _)] =>
      destruct (answer_then c "after-occupancy-answer"
                  (fun how shot => action_event ts (pre ++ c ++ mid ++ how) shot)
                  (modify (fun s => set_answered (mkAnswered (term_end (answered s)) true) s) ;;
                   ret Continue) s)
        as (w & cs & _ & [[e E] | (how & shot & E)])
    end; cbv beta in E; rewrite E; clear E.
    - now apply progress_same.
    - unfold bind, modify, ret, set_answered. cbn [snd].
      unfold Progress, Once. cbn [transcript answered term_end occupancy].
      rewrite !count_events_app, occupancy_event, occupancy_event_other, GB.
      split; split; intros Hf; try discriminate Hf.
      + split; [exact Hf | lia].
      + left. split; [exact Hf | lia].
      + right. split; [reflexivity | lia]. }
  match goal with |- Progress ?s0 (snd (?m ?s0)) =>
    assert (Hev : evolves Progress m)
  end.
  { evolve_with ltac:(first [ apply answer_choice_progress
                            | apply scroll_probe_progress | progress_step ]). }
  apply Hev.
Qed.

Lemma tick_progress prefs : evolves Progress (tick H prefs).
Proof.
  unfold tick.
  evolve_with ltac:(first [ apply decide_progress
                          | apply (progress_of_inert in_tick); apply inert_ask
                          | apply progress_of_log_free; intros s;
                            destruct (wait_network_idle_run H 4000 s) as (r & w & E);
                            rewrite E; now split
                          | progress_step ]).
Qed.

Lemma main_loop_progress prefs n : evolves Progress (main_loop H n prefs).
Proof.
  induction n as [|n IH]; cbn [main_loop].
  - evolve_with fail.
  - evolve_with ltac:(first [ apply tick_progress | apply IH ]).
Qed.

End Answers.

Section Rules.
Context {W : Type} (H : Host W).
Implicit Types s : St W.

(** *** Rule P *)


Lemma find_progress_none (buttons visible : list string) :
  find_progress buttons visible = None ->
  forall pbtn, In pbtn buttons -> any_contains (Py.lower pbtn) visible = false.
Proof.
  induction buttons as [|b rest IH]; cbn; intros Hn pbtn Hin; [destruct Hin|].
  destruct (any_contains (Py.lower b) visible) eqn:Hb; [discriminate Hn|].
  destruct Hin as [<- | Hin]; auto.
Qed.



(** *** Rule F *)

(** When none of Rules P to E applies, the rule chain never continues the
    loop, whatever the scrolls reveal: the value of [scroll_probe] is not
    read. *)
Lemma idle_stop_is_unconditional prefs ts visible s :
  find_progress PROGRESS_BUTTONS visible = None ->
  negb (term_end (answered s)) && (2 <=? count_common visible term_end_set)%nat = false ->
  negb (occupancy (answered s)) && (1 <=? count_common visible occupancy_set)%nat = false ->
  any_contains "check here" visible = false ->
  pop_matching_click visible (pending_steps s) = None ->
  pop_next_free_text (pending_steps s) = None ->
  fst (decide H prefs ts visible s) <> Ok Continue.
Proof.
  intros Hp Ha Hb Hc Hd He. unfold decide. rewrite Hp.
  unfold bind at 1. cbn [get]. rewrite Ha, Hb, Hc, Hd, He.
  unfold bind.
  destruct (scroll_probe H 3 visible s) as [[v|e] s1]; [|discriminate].
  destruct (_safe_screenshot H "idle-no-action" s1) as [[shot|e] s2]; discriminate.
Qed.

End Rules.

Ltac reliable HR :=
  apply total_prim;
  first [ apply (ok_mkdir _ HR) | apply (ok_pw_start _ HR)
        | apply (ok_chromium_launch _ HR) | apply (ok_new_context _ HR)
        | apply (ok_new_page _ HR) | apply (ok_page_goto _ HR)
        | apply (ok_wait_for_timeout _ HR) | apply (ok_mouse_wheel _ HR)
        | apply (ok_page_screenshot _ HR) | apply (ok_context_close _ HR)
        | apply (ok_browser_close _ HR) | apply (ok_pw_stop _ HR)
        | apply (ok_try_send_message _ HR) | apply (ok_click_button_by_text _ HR)
        | apply (ok_list_buttons _ HR) | apply (ok_make_factory _ HR)
        | apply (ok_excel_log_message _ HR) | apply (ok_model_client_close _ HR)
        | apply (ok_write_report _ HR) ].

Ltac simple_total HR :=
  first [ apply total_enter | apply total_ask | apply total_append_event
        | reliable HR ].

Section OnReliableHost.
Context {W : Type} (H : Host W) (HR : Reliable H).
Implicit Types s : St W.

Lemma settle_total ms : total (settle H ms).
Proof. unfold settle. total_with ltac:(simple_total HR). Qed.

Lemma wait_network_idle_total t : total (wait_network_idle H t).
Proof. unfold wait_network_idle. total_with ltac:(simple_total HR). Qed.

Lemma screenshot_total n : total (screenshot H n).
Proof. unfold screenshot. total_with ltac:(simple_total HR). Qed.

Lemma log_to_excel_total a r c : total (log_to_excel H a r c).
Proof. unfold log_to_excel. total_with ltac:(simple_total HR). Qed.

Lemma try_send_message_total m : total (try_send_message H m).
Proof. unfold try_send_message. total_with ltac:(simple_total HR). Qed.

Lemma click_button_by_text_total t e : total (click_button_by_text H t e).
Proof. unfold click_button_by_text. total_with ltac:(simple_total HR). Qed.

Lemma current_buttons_total : total (current_buttons H).
Proof. unfold current_buttons. total_with ltac:(simple_total HR). Qed.

Ltac helper_total :=
  first [ simple_total HR | apply settle_total | apply wait_network_idle_total
        | apply screenshot_total | apply log_to_excel_total
        | apply try_send_message_total | apply click_button_by_text_total
        | apply current_buttons_total ].

Lemma click_and_log_total l e : total (click_and_log H l e).
Proof. unfold click_and_log. total_with helper_total. Qed.

Lemma type_and_log_total m : total (type_and_log H m).
Proof. unfold type_and_log. total_with helper_total. Qed.

Lemma answer_choice_total l pc : total (answer_choice H l pc).
Proof.
  unfold answer_choice.
  total_with ltac:(first [ apply click_and_log_total | apply type_and_log_total
                         | helper_total ]).
Qed.

Lemma observe_current_buttons_total : total (observe_current_buttons H).
Proof. unfold observe_current_buttons. total_with helper_total. Qed.

Lemma scroll_down_total px : total (scroll_down H px).
Proof. unfold scroll_down. total_with helper_total. Qed.

Ltac loop_total :=
  first [ apply answer_choice_total | apply type_and_log_total
        | apply observe_current_buttons_total | apply scroll_down_total
        | helper_total ].

Lemma scroll_probe_total n : forall visible, total (scroll_probe H n visible).
Proof.
  induction n as [|n IH]; intros visible; cbn [scroll_probe].
  - apply total_ret.
  - total_with ltac:(first [ apply IH | loop_total ]).
Qed.

End OnReliableHost.

(** [_safe_screenshot] returns on any host: both attempts are guarded. *)
Lemma _safe_screenshot_total {W : Type} (H : Host W) n : total (_safe_screenshot H n).
Proof.
  unfold _safe_screenshot.
  total_with ltac:(first [ apply total_enter | apply total_ask ]).
Qed.

(** [llm_summary] returns on any host: a failure of the model is caught. *)
Lemma llm_summary_total {W : Type} (H : Host W) : total (llm_summary H).
Proof. unfold llm_summary. total_with fail. Qed.

Section OnReliableHostLoop.
Context {W : Type} (H : Host W) (HR : Reliable H).
Implicit Types s : St W.

Ltac body_total :=
  first [ apply _safe_screenshot_total | apply (answer_choice_total H HR)
        | apply (type_and_log_total H HR) | apply (scroll_probe_total H HR)
        | apply (observe_current_buttons_total H HR)
        | apply (settle_total H HR) | apply (wait_network_idle_total H HR)
        | apply (click_button_by_text_total H HR)
        | apply (log_to_excel_total H HR)
        | simple_total HR ].

Lemma decide_total prefs ts visible : total (decide H prefs ts visible).
Proof. unfold decide. total_with body_total. Qed.

Lemma tick_total prefs : total (tick H prefs).
Proof. unfold tick. total_with ltac:(first [ apply decide_total | body_total ]). Qed.

(** On a reliable host the loop ends normally, by the idle stop or by
    running out of passes. *)
Lemma main_loop_total prefs n : total (main_loop H n prefs).
Proof.
  induction n as [|n IH]; cbn [main_loop].
  - apply total_ret.
  - total_with ltac:(first [ apply tick_total | apply IH ]).
Qed.

Lemma launch_total : total (launch H).
Proof. unfold launch. total_with body_total. Qed.

Lemma goto_total u : total (goto H u).
Proof. unfold goto. total_with body_total. Qed.

Lemma close_total : total (close H).
Proof. unfold close. total_with body_total. Qed.

Lemma aclose_total : total (aclose H).
Proof. unfold aclose. total_with body_total. Qed.

Lemma consent_loop_total labels : total (consent_loop H labels).
Proof.
  induction labels as [|l rest IH]; cbn [consent_loop].
  - apply total_ret.
  - total_with ltac:(first [ apply IH | body_total ]).
Qed.

Lemma render_html_report_total i t : total (render_html_report H i t).
Proof. unfold render_html_report. total_with body_total. Qed.

Lemma run_scenario1_total cfg built :
  build_steps_from_excel (files H) EXCEL_TRANSCRIPT = Ok built ->
  total (run_scenario1 H cfg).
Proof.
  intros Hb. unfold run_scenario1. rewrite Hb.
  total_with ltac:(first [ apply main_loop_total | apply launch_total
                         | apply goto_total | apply close_total | apply aclose_total
                         | apply consent_loop_total | apply render_html_report_total
                         | apply llm_summary_total
                         | (intros ?; eexists; reflexivity)
                         | body_total ]).
Qed.

End OnReliableHostLoop.

Section Release.
Context {W : Type} (H : Host W).
Implicit Types s : St W.

Lemma bind_ok {A B} (m : M (St W) A) (f : A -> M (St W) B) s (b : B) s' :
  bind m f s = (Ok b, s') ->
  exists a s1, m s = (Ok a, s1) /\ f a s1 = (Ok b, s').
Proof.
  unfold bind. destruct (m s) as [[a|e] s1]; [eauto | discriminate].
Qed.

Lemma close_calls s : calls (snd (close H s)) = (calls s ++ [CClose])%list.
Proof.
  assert (Hin : evolves (inert_rel (fun _ => false))
    (try_finally
       (s <- get ;;
        when (h_context (handles s)) (prim (context_close H)) ;;
        when (h_browser (handles s)) (prim (browser_close H)))
       (s <- get ;; when (h_pw (handles s)) (prim (pw_stop H))))).
  { evolve_with ltac:(apply inert_prim). }
  unfold close, bind at 1. cbn [enter].
  match goal with |- context [try_finally ?a ?b ?st] =>
    destruct (Hin st) as (w & cs & E & Hcs)
  end.
  rewrite E. cbn [calls].
  destruct cs as [|c cs]; [now rewrite app_nil_r | discriminate Hcs].
Qed.

Lemma aclose_calls s : calls (snd (aclose H s)) = (calls s ++ [CAClose])%list.
Proof.
  unfold aclose, bind, prim. cbn [enter world].
  destruct (model_client_close H (world s)) as [[u|e] w]; reflexivity.
Qed.

(** A run that returns has released the browser session and the model
    client as its last two calls. *)
Lemma run_scenario1_released cfg s s' :
  run_scenario1 H cfg s = (Ok tt, s') ->
  exists cs, calls s' = (cs ++ [CClose; CAClose])%list.
Proof.
  unfold run_scenario1. intros Hrun.
  repeat match type of Hrun with
  | bind (close H) _ _ = _ => fail 1
  | bind _ _ _ = (Ok _, _) =>
      apply bind_ok in Hrun; destruct Hrun as (? & ? & _ & Hrun); cbv beta zeta in Hrun
  end.
  apply bind_ok in Hrun. destruct Hrun as (u & s1 & Hc & Ha).
  match type of Hc with close H ?s0 = _ =>
    pose proof (close_calls s0) as Ec; rewrite Hc in Ec; cbn [snd] in Ec;
    exists (calls s0)
  end.
  pose proof (aclose_calls s1) as Ea. rewrite Ha in Ea. cbn [snd] in Ea.
  now rewrite Ea, Ec, <- app_assoc.
Qed.

(** A failure of the model at the summary is caught and becomes the
    placeholder text. *)
Lemma llm_summary_failure s e w' :
  skip_llm H (world s) = false ->
  testing_agent_run H (world s) = (Raise e, w') ->
  fst (llm_summary H s) = Ok ("Summary failed: " ++ exn_str e).
Proof.
  intros Hs He. unfold llm_summary, bind, get, try_except, enter, prim.
  rewrite Hs. cbn [negb world]. rewrite He. reflexivity.
Qed.

End Release.

Section StubFacts.
Import Stub.

Lemma step_succeeds {A} (sc : Script) (p : Prim) (a : A) :
  fails sc p = false -> succeeds (step sc p a).
Proof. intros Hp w. unfold step. rewrite Hp. now exists a. Qed.

(** A script that fails at most the load-state wait and the model is a
    reliable host. *)
Lemma stub_reliable (sc : Script) :
  (forall p, p <> PWaitForLoadState -> p <> PTestingAgentRun -> fails sc p = false) ->
  Reliable (host sc).
Proof.
  intros Hf. split; intros; cbn;
    try (apply step_succeeds; apply Hf; discriminate).
  intros w. rewrite (Hf PListButtons); [|discriminate|discriminate]. eexists; reflexivity.
Qed.

End StubFacts.

Section ExactlyOnce.
Context {W : Type} (H : Host W) (HR : Reliable H).
Implicit Types s : St W.

(** On a reliable host a helper that is total and inert returns a value
    and moves only the world and the call log. *)
Lemma run_total_inert {A} (ok : Call -> bool) (m : M (St W) A) s :
  total m -> evolves (inert_rel ok) m ->
  exists a w cs,
    m s = (Ok a, mkSt w (calls s ++ cs)%list (handles s) (transcript s)
                      (pending_steps s) (answered s)).
Proof.
  intros Ht Hi. destruct (Ht s) as [a Ha]. destruct (Hi s) as (w & cs & E & _).
  destruct (m s) as [r s1]. cbn in *. subst. now exists a, w, cs.
Qed.

Lemma observe_value s v s1 :
  observe_current_buttons H s = (Ok v, s1) ->
  exists w w', dom_list_buttons H w = (Ok v, w').
Proof.
  unfold observe_current_buttons, current_buttons, log_to_excel, bind, enter, prim, ret.
  cbn [world].
  destruct (dom_list_buttons H (world s)) as [[v'|e] w'] eqn:E; cbn [world].
  - match goal with |- context [excel_log_message H ?a ?b ?c ?x] =>
      destruct (excel_log_message H a b c x) as [[u|e] w'']
    end; intros Heq; [|discriminate Heq].
    injection Heq as <- _. eauto.
  - discriminate.
Qed.

(** A tick on a reliable host is the rule chain applied to an observation
    of the page, in a state whose log, queue and flags are those the tick
    started with. *)
Lemma tick_on_reliable prefs s :
  exists v ts w cs,
    (exists w0 w1, dom_list_buttons H w0 = (Ok v, w1))
    /\ tick H prefs s
       = decide H prefs ts v
           (mkSt w (calls s ++ cs)%list (handles s) (transcript s)
                 (pending_steps s) (answered s)).
Proof.
  unfold tick.
  destruct (wait_network_idle_run H 4000 s) as (r1 & w1 & E1).
  destruct (wait_network_idle_total H HR 4000 s) as [u1 Hu1].
  rewrite E1 in Hu1. cbn in Hu1. subst r1.
  unfold bind at 1. rewrite E1.
  unfold bind at 1.
  match goal with |- context [settle H 450 ?st] =>
    destruct (run_total_inert plumbing (settle H 450) st
                (settle_total H HR 450) (settle_inert H 450)) as (u2 & w2 & c2 & E2)
  end.
  rewrite E2. cbn [calls handles transcript pending_steps answered] in *.
  unfold bind at 1.
  match goal with |- context [observe_current_buttons H ?st] =>
    destruct (run_total_inert plumbing (observe_current_buttons H) st
                (observe_current_buttons_total H HR)
                (observe_current_buttons_inert H)) as (v & w3 & c3 & E3)
  end.
  rewrite E3. cbn [calls handles transcript pending_steps answered] in *.
  unfold bind at 1, ask. cbn [world].
  destruct (now_iso H w3) as [ts w4]. cbn [calls handles transcript pending_steps answered].
  exists v, ts, w4, ([CWaitNetworkIdle 4000] ++ c2 ++ c3)%list.
  split; [exact (observe_value _ _ _ E3)|].
  unfold set_world. cbn [calls handles transcript pending_steps answered].
  now rewrite <- !app_assoc.
Qed.

Lemma progress_event ts x shot :
  is_progress_event (action_event ts ("Progressed via '" ++ x) shot) = true.
Proof. unfold is_progress_event, action_event. cbn. now destruct x. Qed.

(** With the term-end question open and two term-end labels in view, the
    rule chain on a reliable host continues, either by Rule P, logging a
    progression entry, or by Rule A, logging the answer and setting the
    flag. *)
Lemma decide_term_end_open prefs ts v s :
  term_end (answered s) = false ->
  2 <= count_common v term_end_set ->
  let r := decide H prefs ts v s in
  let te := count_events (is_answer_event "term end") in
  let pg := count_events is_progress_event in
  fst r = Ok Continue
  /\ ((term_end (answered (snd r)) = false
       /\ te (transcript (snd r)) = te (transcript s)
       /\ pg (transcript (snd r)) = S (pg (transcript s)))
      \/ (term_end (answered (snd r)) = true
          /\ te (transcript (snd r)) = S (te (transcript s)))).
Proof.
  intros Hte Hv r te pg. subst r te pg.
  destruct (decide_total H HR prefs ts v s) as [f Hf].
  destruct (find_progress PROGRESS_BUTTONS v) as [np|] eqn:Hfp.
  - destruct (answer_then H np "after-progress"
                (fun how shot => action_event ts
                   ("Progressed via '" ++ np ++ "' using " ++ how) shot)
                (ret Continue) s)
      as (w & cs & _ & [[e E] | (how & shot & E)]); cbv beta in E;
      match type of E with _ = ?rhs =>
        assert (Hd : decide H prefs ts v s = rhs)
          by (unfold decide; rewrite Hfp; exact E)
      end; rewrite Hd in Hf |- *; [discriminate Hf|].
    cbn [ret fst snd transcript answered]. split; [reflexivity|].
    left. rewrite !count_events_app, progress_event.
    assert (Hno : is_answer_event "term end"
                    (action_event ts ("Progressed via '" ++ np ++ "' using " ++ how) shot)
                  = false) by reflexivity.
    rewrite Hno. repeat split; [exact Hte | lia | lia].
  - apply Nat.leb_le in Hv.
    destruct (answer_then H (pref_or (pref_term_end prefs) "3-6 months away")
                "after-term-end-answer"
                (fun how shot => action_event ts
                   ("Answered 'term end' -> "
                    ++ pref_or (pref_term_end prefs) "3-6 months away"
                    ++ " via " ++ how) shot)
                (modify (fun s => set_answered (mkAnswered true (occupancy (answered s))) s) ;;
                 ret Continue) s)
      as (w & cs & _ & [[e E] | (how & shot & E)]); cbv beta in E;
      match type of E with _ = ?rhs =>
        assert (Hd : decide H prefs ts v s = rhs)
          by (unfold decide; rewrite Hfp; unfold bind at 1; cbn [get];
              rewrite Hte, Hv; cbn [negb andb]; exact E)
      end; rewrite Hd in Hf |- *; [discriminate Hf|].
    unfold bind, modify, ret, set_answered.
    cbn [fst snd transcript answered term_end]. split; [reflexivity|].
    right. rewrite count_events_app, term_end_event. split; [reflexivity | lia].
Qed.

(** With every observation showing two term-end labels, the loop on a
    reliable host logs exactly one term-end answer, unless Rule P took
    every one of its [n] passes. *)
Lemma main_loop_term_end_once prefs n :
  (forall w v w', dom_list_buttons H w = (Ok v, w') -> 2 <= count_common v term_end_set) ->
  forall s,
    term_end (answered s) = false ->
    let s' := snd (main_loop H n prefs s) in
    let te := count_events (is_answer_event "term end") in
    let pg := count_events is_progress_event in
    te (transcript s') = S (te (transcript s))
    \/ (te (transcript s') = te (transcript s)
        /\ pg (transcript s') = pg (transcript s) + n).
Proof.
  intros Hobs. induction n as [|n IH]; intros s Hte; cbv zeta.
  - right. cbn. split; [reflexivity | lia].
  - cbn [main_loop]. unfold bind.
    destruct (tick_on_reliable prefs s) as (v & ts & w & cs & (w0 & w1 & Hv) & Et).
    rewrite Et.
    match goal with |- context [decide H prefs ts v ?st] =>
      destruct (decide_term_end_open prefs ts v st Hte (Hobs _ _ _ Hv))
        as (Hf & Hcase);
      destruct (decide H prefs ts v st) as [f s1]
    end.
    cbn [fst snd transcript answered] in *. subst f.
    destruct Hcase as [(Hte1 & Ec & Ep) | (Hte1 & Ec)].
    + specialize (IH s1 Hte1). cbv zeta in IH.
      destruct IH as [IH | [IH1 IH2]]; [left; lia | right; lia].
    + left. destruct (main_loop_progress H prefs n s1) as [[Hkeep _] _].
      destruct (Hkeep Hte1) as [_ Ecnt]. lia.
Qed.

End ExactlyOnce.

End EngineFacts.

(* ===================================================================== *)
(** * Properties of the replay engine *)
(* ===================================================================== *)

Module EngineClaims.
Import Loader Compiler Engine Stub Spec EngineFacts.

(** C1.  The three-row transcript compiles to [Click "Live in it"] and
    [FreeText "looking good"].  Against a page whose first observation is
    ["Live in it"; "Rent it out"] and whose later observations are empty,
    whether typing and clicking succeed or not, the loop answers
    "occupancy" once (Rule B), then types "looking good" (Rule E), then
    stops idle (Rule F) after three scrolls on its third pass: the log
    holds exactly two entries of executed actions and one idle entry.
    In the whole of [run_scenario1] these three entries are the last ones
    before the summary. *)
Theorem three_row_transcript_replay :
  forall (typing clicking : bool),
    let sc := scenario_script typing clicking in
    let how := if typing then "typed" else if clicking then "clicked" else "failed" in
    let now := "2025-01-01T00:00:00" in
    let r := main_loop (host sc) 80 (mkPreferences None (Some "Live in it"))
               (loop_start [Click "Live in it"; FreeText "looking good"]) in
    build_steps_from_excel (files (host sc)) EXCEL_TRANSCRIPT
    = Ok ([Click "Live in it"; FreeText "looking good"],
          [mkTurn "assistant" "Compare" "Welcome";
           mkTurn "user" "Anant" "Live in it";
           mkTurn "user" "Anant" "looking good"])
    /\ scan_preferences [mkTurn "assistant" "Compare" "Welcome";
                         mkTurn "user" "Anant" "Live in it";
                         mkTurn "user" "Anant" "looking good"]
       = mkPreferences None (Some "Live in it")
    /\ fst r = Ok tt
    /\ transcript (snd r)
       = [ action_event now ("Answered 'occupancy' -> Live in it via " ++ how)
             "files/screenshots/after-occupancy-answer.png";
           mkEvent now "user" "You" "looking good"
             (Some "files/screenshots/after-free-text.png");
           mkEvent now "info" "TestingAgent"
             "No matching buttons or text left; pausing."
             (Some "files/screenshots/idle-no-action.png") ]
    /\ count_events (is_answer_event "occupancy") (transcript (snd r)) = 1
    /\ count_events is_action_event (transcript (snd r)) = 2
    /\ count_events is_idle_event (transcript (snd r)) = 1
    /\ ticks (calls (snd r)) = 3
    /\ length (filter is_scroll_call (calls (snd r))) = 3
    /\ answered (snd r) = mkAnswered false true
    /\ pending_steps (snd r) = [Click "Live in it"]
    /\ (let full := run_scenario1 (host sc) cfg0 (initial 0) in
        fst full = Ok tt
        /\ skipn (length (transcript (snd full)) - 4) (transcript (snd full))
           = (transcript (snd r)
              ++ [mkEvent now "assistant" "TestingAgent" "LLM summary skipped." None])%list).
Proof.
  intros [|] [|]; vm_compute; repeat split; reflexivity.
Qed.

(** C4.  The loop begins at most 80 ticks from any state on any host,
    whatever the page shows.  On a host that honours the collaborator
    contract it ends normally for every stream of observations, whether by
    the idle stop or by running out of its 80 passes; a page that shows
    "Continue" for ever drives it through exactly 80 ticks to a normal
    end, with no error and no idle entry. *)
Theorem loop_is_capped :
  forall (W : Type) (H : Host W) (prefs : Preferences) (s : St W),
    ticks (calls (snd (main_loop H 80 prefs s))) <= ticks (calls s) + 80
    /\ (Reliable H -> fst (main_loop H 80 prefs s) = Ok tt)
    /\ (let r := main_loop (host term_end_and_continue) 80
                   (mkPreferences None None) (loop_start []) in
        fst r = Ok tt
        /\ ticks (calls (snd r)) = 80
        /\ count_events is_idle_event (transcript (snd r)) = 0).
Proof.
  intros W H prefs s. split; [apply main_loop_ticks|]. split.
  - intros HR. destruct (main_loop_total H HR prefs 80 s) as [[] E]. exact E.
  - vm_compute. repeat split; reflexivity.
Qed.

(** C4 on the scripted page that shows "Continue" for ever. *)
Lemma loop_is_capped_witness :
  Reliable (host term_end_and_continue)
  /\ fst (main_loop (host term_end_and_continue) 80 (mkPreferences None None)
            (loop_start [])) = Ok tt.
Proof.
  assert (HR : Reliable (host term_end_and_continue))
    by (apply stub_reliable; intros p _ _; reflexivity).
  split; [exact HR|].
  destruct (loop_is_capped World (host term_end_and_continue)
              (mkPreferences None None) (loop_start [])) as (_ & Hend & _).
  exact (Hend HR).
Defined.

(** C5 says that Rule F continues the loop when a scroll reveals
    affordances, and stops idle only when none is revealed; the code stops
    idle in both cases.  The page shows nothing on the tick's
    observation and the first scroll reveals ["Live in it"; "Rent it out"],
    which Rule B would answer: the loop scrolls once, sees the revealed
    labels, and all the same logs the idle entry and ends after this one
    tick, with "occupancy" unanswered. *)
Theorem revealed_affordances_still_idle_stop :
  let sc := revealed_by_scroll in
  let r := main_loop (host sc) 80 (mkPreferences None None) (loop_start []) in
  observations sc 0 = []
  /\ observations sc 1 = ["Live in it"; "Rent it out"]
  /\ fst (scroll_probe (host sc) 3 [] (loop_start [])) = Ok ["Live in it"; "Rent it out"]
  /\ fst r = Ok tt
  /\ ticks (calls (snd r)) = 1
  /\ length (filter is_scroll_call (calls (snd r))) = 1
  /\ transcript (snd r)
     = [mkEvent "2025-01-01T00:00:00" "info" "TestingAgent"
          "No matching buttons or text left; pausing."
          (Some "files/screenshots/idle-no-action.png")]
  /\ answered (snd r) = mkAnswered false false.
Proof. vm_compute. repeat split; reflexivity. Qed.



(** C9, amended.  A run in which no step raises, the language model
    apart, returns normally, whether the loop stopped idle or ran out of
    passes, and whether or not the summary failed; a run that returns has
    made [close] and [aclose] its last two calls; and a failure of the
    model at the summary is caught and becomes the text
    "Summary failed: ...". *)
Theorem returning_run_releases :
  forall (W : Type) (H : Host W) (cfg : Config) (w : W),
    Reliable H ->
    (exists built, build_steps_from_excel (files H) EXCEL_TRANSCRIPT = Ok built) ->
    (exists s' cs,
       run_scenario1 H cfg (initial w) = (Ok tt, s')
       /\ calls s' = (cs ++ [CClose; CAClose])%list)
    /\ (forall s s', run_scenario1 H cfg s = (Ok tt, s') ->
          exists cs, calls s' = (cs ++ [CClose; CAClose])%list)
    /\ (forall s e w',
          skip_llm H (world s) = false ->
          testing_agent_run H (world s) = (Raise e, w') ->
          fst (llm_summary H s) = Ok ("Summary failed: " ++ exn_str e)).
Proof.
  intros W H cfg w HR [built Hb]. split; [|split].
  - destruct (run_scenario1_total H HR cfg built Hb (initial w)) as [[] E].
    destruct (run_scenario1 H cfg (initial w)) as [r s'] eqn:Er. cbn in E. subst r.
    destruct (run_scenario1_released H cfg _ _ Er) as [cs Ecs].
    now exists s', cs.
  - intros s s'. apply run_scenario1_released.
  - intros s e w'. apply llm_summary_failure.
Qed.

(** The amended C9 on the script whose model fails at the summary. *)
Lemma returning_run_releases_witness :
  Reliable (host summary_fails)
  /\ (exists built,
        build_steps_from_excel (files (host summary_fails)) EXCEL_TRANSCRIPT = Ok built)
  /\ exists s' cs,
       run_scenario1 (host summary_fails) cfg0 (initial 0) = (Ok tt, s')
       /\ calls s' = (cs ++ [CClose; CAClose])%list.
Proof.
  assert (HR : Reliable (host summary_fails)).
  { apply stub_reliable. intros p _ Hp. destruct p; try reflexivity. now elim Hp. }
  assert (Hb : exists built,
            build_steps_from_excel (files (host summary_fails)) EXCEL_TRANSCRIPT
            = Ok built) by (eexists; reflexivity).
  split; [exact HR|]. split; [exact Hb|].
  destruct (returning_run_releases World (host summary_fails) cfg0 0 HR Hb)
    as (Hrun & _).
  exact Hrun.
Defined.

(** C9 as stated fails: when navigation to the start URL raises, after
    the factory, the browser controller and the model client exist and the
    browser is launched, the exception leaves [run_scenario1] and neither
    [close] nor [aclose] is called. *)
Lemma navigation_failure_releases_nothing :
  let r := run_scenario1 (host goto_fails) cfg0 (initial 0) in
  fst r = Raise (Exception "scripted failure")
  /\ calls (snd r) = [CLaunch; CGoto "https://compare.example/"]
  /\ handles (snd r) = mkHandles true true true true
  /\ ~ In CClose (calls (snd r))
  /\ ~ In CAClose (calls (snd r)).
Proof.
  vm_compute. repeat split; try reflexivity;
    intros [Hc | [Hc | []]]; discriminate Hc.
Qed.

(** C2, amended.  On any host, over any number of passes of the loop and
    over a single tick, each of the two flags is never reset, and the log
    gains one answer entry of a category exactly when the category's flag
    goes from false to true, none otherwise: at most one per category in a
    run.  When every observation shows at least two distinct term-end
    labels, no collaborator raises and the term-end question is open, the
    80 passes log exactly one "term end" answer, unless a progression
    label was matched on all 80 ticks (Rule P has priority), in which case
    they log none. *)
Theorem answered_at_most_once :
  forall (W : Type) (H : Host W) (prefs : Preferences) (n : nat) (s : St W),
    let te := count_events (is_answer_event "term end") in
    let oc := count_events (is_answer_event "occupancy") in
    let pg := count_events is_progress_event in
    Progress s (snd (main_loop H n prefs s))
    /\ Progress s (snd (tick H prefs s))
    /\ te (transcript (snd (main_loop H n prefs s))) <= te (transcript s) + 1
    /\ oc (transcript (snd (main_loop H n prefs s))) <= oc (transcript s) + 1
    /\ (Reliable H ->
        (forall w v w', dom_list_buttons H w = (Ok v, w') ->
                        2 <= count_common v term_end_set) ->
        term_end (answered s) = false ->
        te (transcript (snd (main_loop H 80 prefs s))) = te (transcript s) + 1
        \/ (te (transcript (snd (main_loop H 80 prefs s))) = te (transcript s)
            /\ pg (transcript (snd (main_loop H 80 prefs s)))
               = pg (transcript s) + 80)).
Proof.
  intros W H prefs n s te oc pg. subst te oc pg.
  pose proof (main_loop_progress H prefs n s) as Hp.
  split; [exact Hp|]. split; [apply tick_progress|].
  destruct Hp as [[Ht1 Ht2] [Ho1 Ho2]]. cbv zeta in *.
  split; [|split].
  - destruct (term_end (answered s)).
    + destruct (Ht1 eq_refl) as [_ E]. lia.
    + destruct (Ht2 eq_refl) as [[_ E] | [_ E]]; lia.
  - destruct (occupancy (answered s)).
    + destruct (Ho1 eq_refl) as [_ E]. lia.
    + destruct (Ho2 eq_refl) as [[_ E] | [_ E]]; lia.
  - intros HR Hobs Hte.
    destruct (main_loop_term_end_once H HR prefs 80 Hobs s Hte) as [E | [E1 E2]];
      [left; lia | right; split; [exact E1 | exact E2]].
Qed.

(** The amended C2 on the page that shows the two term-end choices only:
    exactly one "term end" answer in the run. *)
Lemma answered_at_most_once_witness :
  Reliable (host term_end_only)
  /\ (forall w v w', dom_list_buttons (host term_end_only) w = (Ok v, w') ->
                     2 <= count_common v term_end_set)
  /\ term_end (answered (loop_start [])) = false
  /\ count_events (is_answer_event "term end")
       (transcript (snd (main_loop (host term_end_only) 80
                           (mkPreferences None None) (loop_start [])))) = 1.
Proof.
  assert (HR : Reliable (host term_end_only))
    by (apply stub_reliable; intros p _ _; reflexivity).
  assert (Hobs : forall w v w',
            dom_list_buttons (host term_end_only) w = (Ok v, w') ->
            2 <= count_common v term_end_set).
  { intros w v w' E. cbn in E. injection E as <- _. cbn. lia. }
  split; [exact HR|]. split; [exact Hobs|]. split; [reflexivity|].
  destruct (answered_at_most_once World (host term_end_only)
              (mkPreferences None None) 80 (loop_start []))
    as (_ & _ & _ & _ & Honce).
  destruct (Honce HR Hobs eq_refl) as [E | [_ E]].
  - exact E.
  - vm_compute in E. discriminate E.
Defined.

(** C2 as stated fails: every observation shows the two term-end labels
    "6+ months away" and "3-6 months away", and "Continue" beside them;
    Rule P takes each of the 80 ticks and the run logs no "term end"
    answer at all. *)
Lemma term_end_never_answered_behind_continue :
  let r := main_loop (host term_end_and_continue) 80
             (mkPreferences None None) (loop_start []) in
  (forall n, count_common (observations term_end_and_continue n) term_end_set = 2)
  /\ fst r = Ok tt
  /\ ticks (calls (snd r)) = 80
  /\ count_events (is_answer_event "term end") (transcript (snd r)) = 0
  /\ count_events is_progress_event (transcript (snd r)) = 80
  /\ term_end (answered (snd r)) = false.
Proof.
  split; [intros n; reflexivity|].
  vm_compute. repeat split; reflexivity.
Qed.

End EngineClaims.

(* ===================================================================== *)
(** * Further properties of the action compiler and the preferences *)
(* ===================================================================== *)

Module CompilerExtras.
Import Loader Compiler Engine Spec Laws CompilerFacts.





Lemma scan_turn_vocabulary (p : Preferences) (t : Turn) :
  (forall l, pref_term_end p = Some l -> In l term_end_set) ->
  (forall l, pref_occupancy p = Some l -> In l occupancy_set) ->
  (forall l, pref_term_end (scan_turn p t) = Some l -> In l term_end_set)
  /\ (forall l, pref_occupancy (scan_turn p t) = Some l -> In l occupancy_set).
Proof.
  intros Ht Ho. unfold scan_turn. cbn [pref_term_end pref_occupancy]. split; intros l.
  - destruct (Py.contains "6+ months" _); [intros E; injection E as <-; cbn; auto|].
    destruct (_ || _ || _); [intros E; injection E as <-; cbn; auto|].
    destruct (Py.contains "less than 3 months" _); [intros E; injection E as <-; cbn; auto|].
    destruct (Py.contains "already ended" _); [intros E; injection E as <-; cbn; auto 6|].
    apply Ht.
  - destruct (Py.contains "live in it" _); [intros E; injection E as <-; cbn; auto|].
    destruct (Py.contains "rent it out" _); [intros E; injection E as <-; cbn; auto|].
    apply Ho.
Qed.

Lemma scan_from_vocabulary (context : list Turn) :
  forall p,
    (forall l, pref_term_end p = Some l -> In l term_end_set) ->
    (forall l, pref_occupancy p = Some l -> In l occupancy_set) ->
    (forall l, pref_term_end (fold_left scan_turn context p) = Some l -> In l term_end_set)
    /\ (forall l, pref_occupancy (fold_left scan_turn context p) = Some l
                  -> In l occupancy_set).
Proof.
  induction context as [|t rest IH]; intros p Ht Ho; cbn [fold_left]; [auto|].
  destruct (scan_turn_vocabulary p t Ht Ho) as [Ht' Ho']. now apply IH.
Qed.

Lemma scan_from_unmentioned (context : list Turn) :
  forall p,
    (forall t, In t context -> mentions_occupancy t = false) ->
    pref_occupancy (fold_left scan_turn context p) = pref_occupancy p.
Proof.
  induction context as [|t rest IH]; intros p Hno; cbn [fold_left]; [reflexivity|].
  rewrite IH by (intros t' Ht'; apply Hno; now right).
  specialize (Hno t (or_introl eq_refl)). unfold mentions_occupancy in Hno.
  apply orb_false_iff in Hno as [H1 H2].
  unfold scan_turn. cbn [pref_occupancy]. now rewrite H1, H2.
Qed.

Lemma scan_from_unmentioned_term_end (context : list Turn) :
  forall p,
    (forall t, In t context -> mentions_term_end t = false) ->
    pref_term_end (fold_left scan_turn context p) = pref_term_end p.
Proof.
  induction context as [|t rest IH]; intros p Hno; cbn [fold_left]; [reflexivity|].
  rewrite IH by (intros t' Ht'; apply Hno; now right).
  specialize (Hno t (or_introl eq_refl)). unfold mentions_term_end in Hno.
  cbv zeta in Hno.
  apply orb_false_iff in Hno as [Hno H6]. apply orb_false_iff in Hno as [Hno H5].
  apply orb_false_iff in Hno as [Hno H4]. apply orb_false_iff in Hno as [Hno H3].
  apply orb_false_iff in Hno as [H1 H2].
  unfold scan_turn. cbn [pref_term_end].
  now rewrite H1, H2, H3, H4, H5, H6.
Qed.

(** X2.  A preference derived from the transcript is always a label of
    the category's own vocabulary, so the label Rules A and B answer with,
    preference or default, is one the page can show for that category.
    The last turn that names a choice decides: turns after it that name
    none leave the preference as it is, and a transcript that names no
    occupancy choice (no term-end choice) leaves the default in force. *)
Theorem preferences_stay_in_vocabulary :
  forall (context : list Turn),
    let p := scan_preferences context in
    (forall l, pref_term_end p = Some l -> In l term_end_set)
    /\ (forall l, pref_occupancy p = Some l -> In l occupancy_set)
    /\ In (pref_or (pref_term_end p) "3-6 months away") term_end_set
    /\ In (pref_or (pref_occupancy p) "Live in it") occupancy_set
    /\ (forall later,
          (forall t, In t later -> mentions_occupancy t = false) ->
          pref_occupancy (scan_preferences (context ++ later)) = pref_occupancy p)
    /\ (forall later,
          (forall t, In t later -> mentions_term_end t = false) ->
          pref_term_end (scan_preferences (context ++ later)) = pref_term_end p)
    /\ ((forall t, In t context -> mentions_occupancy t = false) ->
        pref_or (pref_occupancy p) "Live in it" = "Live in it")
    /\ ((forall t, In t context -> mentions_term_end t = false) ->
        pref_or (pref_term_end p) "3-6 months away" = "3-6 months away").
Proof.
  intros context p. subst p. unfold scan_preferences.
  destruct (scan_from_vocabulary context (mkPreferences None None)) as [Ht Ho];
    try (cbn; discriminate).
  assert (Hor : forall (o : option string) (d : string) (voc : list string),
            In d voc -> (forall l, o = Some l -> In l voc) ->
            (forall l, In l voc -> l <> EmptyString) ->
            In (pref_or o d) voc).
  { intros o d voc Hd Hv Hne. unfold pref_or. destruct o as [c|]; [|exact Hd].
    specialize (Hv c eq_refl). specialize (Hne c Hv).
    unfold Py.str_or. destruct c; [congruence | exact Hv]. }
  split; [exact Ht|]. split; [exact Ho|]. split; [|split; [|split; [|split; [|split]]]].
  - apply Hor; [cbn; auto | exact Ht |].
    intros l Hl. cbn in Hl. intuition (subst; discriminate).
  - apply Hor; [cbn; auto | exact Ho |].
    intros l Hl. cbn in Hl. intuition (subst; discriminate).
  - intros later Hno. rewrite fold_left_app. now apply scan_from_unmentioned.
  - intros later Hno. rewrite fold_left_app. now apply scan_from_unmentioned_term_end.
  - intros Hno. now rewrite (scan_from_unmentioned context _ Hno).
  - intros Hno. now rewrite (scan_from_unmentioned_term_end context _ Hno).
Qed.

End CompilerExtras.

(* ===================================================================== *)
(** * Further properties of the replay engine *)
(* ===================================================================== *)

Module EngineExtras.
Import Loader Compiler Engine Stub Spec Laws EngineFacts.

Ltac prims :=
  first [ apply inert_prim | apply inert_ask | apply inert_enter; reflexivity ].

Section Queue.

Lemma subseq_refl {A} (l : list A) : Subseq l l.
Proof. induction l; constructor; auto. Qed.

Lemma subseq_trans {A} (l1 l2 l3 : list A) :
  Subseq l1 l2 -> Subseq l2 l3 -> Subseq l1 l3.
Proof.
  intros H12 H23. revert l1 H12.
  induction H23 as [|x l2 l3 _ IH|x l2 l3 _ IH]; intros l1 H12.
  - exact H12.
  - inversion H12; subst; constructor; auto.
  - constructor; auto.
Qed.

Lemma subseq_remove {A} (l1 l2 : list A) (x : A) : Subseq (l1 ++ l2) (l1 ++ x :: l2).
Proof.
  induction l1 as [|y l1 IH]; cbn.
  - constructor. apply subseq_refl.
  - now constructor.
Qed.

Lemma subseq_length {A} (l' l : list A) : Subseq l' l -> length l' <= length l.
Proof. induction 1; cbn; lia. Qed.

(** [_pop_matching_click] takes the first click that matches, and only it. *)
Lemma pop_matching_click_some visible pending lab rest :
  pop_matching_click visible pending = Some (lab, rest) ->
  exists l1 l2,
    pending = (l1 ++ Click lab :: l2)%list
    /\ rest = (l1 ++ l2)%list
    /\ any_contains (Py.lower lab) visible = true
    /\ (forall lab', In (Click lab') l1 -> any_contains (Py.lower lab') visible = false).
Proof.
  revert rest. induction pending as [|st pending IH]; intros rest; [discriminate|].
  cbn [pop_matching_click].
  destruct st as [l|t].
  - destruct (any_contains (Py.lower l) visible) eqn:Hl.
    + intros E. injection E as <- <-. exists [], pending. repeat split; auto.
      intros lab' [].
    + destruct (pop_matching_click visible pending) as [[lab0 rest0]|]; [|discriminate].
      intros E. injection E as <- <-.
      destruct (IH rest0 eq_refl) as (l1 & l2 & -> & -> & Hm & Hbefore).
      exists (Click l :: l1), l2. repeat split; auto.
      intros lab' [E | Hin]; [now injection E as <- | auto].
  - destruct (pop_matching_click visible pending) as [[lab0 rest0]|]; [|discriminate].
    intros E. injection E as <- <-.
    destruct (IH rest0 eq_refl) as (l1 & l2 & -> & -> & Hm & Hbefore).
    exists (FreeText t :: l1), l2. repeat split; auto.
    intros lab' [E | Hin]; [discriminate E | auto].
Qed.

Lemma pop_matching_click_none visible pending :
  pop_matching_click visible pending = None ->
  forall lab, In (Click lab) pending -> any_contains (Py.lower lab) visible = false.
Proof.
  induction pending as [|st pending IH]; intros Hn lab Hin; [destruct Hin|].
  cbn [pop_matching_click] in Hn.
  destruct (pop_matching_click visible pending) as [[lab0 rest0]|].
  - destruct st as [l|t]; [|discriminate Hn].
    destruct (any_contains (Py.lower l) visible); discriminate Hn.
  - destruct Hin as [-> | Hin]; [|auto].
    destruct (any_contains (Py.lower lab) visible); [discriminate Hn | reflexivity].
Qed.

(** [_pop_next_free_text] takes the earliest free text, and only it. *)
Lemma pop_next_free_text_some pending t rest :
  pop_next_free_text pending = Some (t, rest) ->
  exists l1 l2,
    pending = (l1 ++ FreeText t :: l2)%list
    /\ rest = (l1 ++ l2)%list
    /\ (forall t', ~ In (FreeText t') l1).
Proof.
  revert rest. induction pending as [|st pending IH]; intros rest; [discriminate|].
  cbn [pop_next_free_text]. destruct st as [l|t0].
  - destruct (pop_next_free_text pending) as [[t1 rest1]|]; [|discriminate].
    intros E. injection E as <- <-.
    destruct (IH rest1 eq_refl) as (l1 & l2 & -> & -> & Hbefore).
    exists (Click l :: l1), l2. repeat split; auto.
    intros t' [E | Hin]; [discriminate E | now apply (Hbefore t')].
  - intros E. injection E as <- <-. exists [], pending. repeat split; auto.
Qed.

Lemma pop_next_free_text_none pending :
  pop_next_free_text pending = None -> forall t, ~ In (FreeText t) pending.
Proof.
  induction pending as [|st pending IH]; intros Hn t Hin; [destruct Hin|].
  cbn [pop_next_free_text] in Hn. destruct st as [l|t0]; [|discriminate Hn].
  destruct (pop_next_free_text pending) as [[t1 rest1]|]; [discriminate Hn|].
  destruct Hin as [E | Hin]; [discriminate E | now apply (IH eq_refl t)].
Qed.

End Queue.

Section Traces.
Context {W : Type} (H : Host W).
Implicit Types s : St W.

#[local] Instance keeps_preorder {X : Type} (proj : St W -> X) : PreOrder (Keeps proj).
Proof.
  split; [intros s; reflexivity|].
  intros a b c Hab Hbc. unfold Keeps in *. congruence.
Qed.

#[local] Instance queue_preorder : PreOrder (@QueueShrinks W).
Proof.
  split; [intros s; apply subseq_refl|].
  intros a b c Hab Hbc. unfold QueueShrinks in *. eapply subseq_trans; eauto.
Qed.

Lemma keeps_of_inert {X A} (proj : St W -> X) (ok : Call -> bool) (m : M (St W) A) :
  (forall s w cs,
      proj (mkSt w cs (handles s) (transcript s) (pending_steps s) (answered s))
      = proj s) ->
  evolves (inert_rel ok) m -> evolves (Keeps proj) m.
Proof. intros Hp Hm s. destruct (Hm s) as (w & cs & -> & _). apply Hp. Qed.

Lemma keeps_modify {X} (proj : St W -> X) (f : St W -> St W) :
  (forall s, proj (f s) = proj s) -> evolves (Keeps proj) (modify f).
Proof. intros Hf s. apply Hf. Qed.

Lemma keeps_pending_append (e : Event) :
  evolves (Keeps (@pending_steps W)) (append_event e).
Proof. intros s. reflexivity. Qed.

(** [answer_choice], [scroll_down] and [scroll_probe] move only the world
    and the call log. *)
Lemma answer_choice_inert l pc : evolves (inert_rel in_tick) (answer_choice H l pc).
Proof.
  intros s. destruct (answer_choice_run H l pc s) as (r & w & cs & E & Hcs).
  rewrite E. exists w, (CAnswerChoice l pc :: cs). split; [reflexivity|].
  cbn. now apply in_tick_weaken.
Qed.

Lemma settle_quiet ms : evolves (inert_rel quiet) (settle H ms).
Proof. unfold settle. evolve_with prims. Qed.

Lemma observe_quiet : evolves (inert_rel quiet) (observe_current_buttons H).
Proof.
  unfold observe_current_buttons, current_buttons, log_to_excel. evolve_with prims.
Qed.

Lemma scroll_down_quiet px : evolves (inert_rel quiet) (scroll_down H px).
Proof.
  unfold scroll_down. evolve_with ltac:(first [ apply settle_quiet | prims ]).
Qed.

Lemma scroll_probe_quiet n : forall visible,
  evolves (inert_rel quiet) (scroll_probe H n visible).
Proof.
  induction n as [|n IH]; intros visible; cbn [scroll_probe].
  - evolve_with fail.
  - evolve_with ltac:(first [ apply scroll_down_quiet | apply observe_quiet | apply IH ]).
Qed.

Lemma quiet_of_plumbing (cs : list Call) :
  forallb plumbing cs = true -> forallb quiet cs = true.
Proof.
  rewrite !forallb_forall. intros Hp c Hc. unfold quiet. now rewrite (Hp c Hc).
Qed.

Lemma quiet_no_answer (cs : list Call) :
  forallb quiet cs = true -> filter is_answer_call cs = [].
Proof.
  induction cs as [|c cs IH]; [reflexivity|]. cbn [forallb filter].
  intros Hc. apply andb_true_iff in Hc as [Hc Hcs].
  destruct c; cbn in Hc; try discriminate Hc; cbn; auto.
Qed.

(** An action, the screenshot, one log entry, then [k]: either a helper
    raised and nothing was logged, or [k] runs with the entry logged. *)
Lemma act_then {A B} (ok : Call -> bool) (m1 : M (St W) A) n
      (ev : A -> string -> Event) (k : M (St W) B) s :
  evolves (inert_rel ok) m1 ->
  exists w cs,
    forallb (fun c => ok c || plumbing c) cs = true /\
    ((exists e,
        (a <- m1 ;; shot <- _safe_screenshot H n ;; append_event (ev a shot) ;; k) s
        = (Raise e, mkSt w (calls s ++ cs)%list (handles s)
                         (transcript s) (pending_steps s) (answered s)))
     \/ (exists a shot,
        (a <- m1 ;; shot <- _safe_screenshot H n ;; append_event (ev a shot) ;; k) s
        = k (mkSt w (calls s ++ cs)%list (handles s)
                  (transcript s ++ [ev a shot])%list (pending_steps s) (answered s)))).
Proof.
  intros Hm1.
  set (prog := (a <- m1 ;; shot <- _safe_screenshot H n ;; append_event (ev a shot) ;; k)).
  assert (Hc : prog s =
    match m1 s with
    | (Ok a, s1) =>
        match _safe_screenshot H n s1 with
        | (Ok shot, s2) =>
            k (mkSt (world s2) (calls s2) (handles s2)
                    (transcript s2 ++ [ev a shot])%list
                    (pending_steps s2) (answered s2))
        | (Raise e, s2) => (Raise e, s2)
        end
    | (Raise e, s1) => (Raise e, s1)
    end).
  { unfold prog, bind.
    destruct (m1 s) as [[a|e] s1]; [|reflexivity].
    destruct (_safe_screenshot H n s1) as [[shot|e] s2]; reflexivity. }
  rewrite Hc. clear Hc prog.
  destruct (Hm1 s) as (w & cs & E & Hcs).
  destruct (m1 s) as [r s1]. cbn in E. subst s1.
  assert (Hcs1 : forallb (fun c => ok c || plumbing c) cs = true).
  { rewrite forallb_forall in *. intros c Hc. now rewrite (Hcs c Hc). }
  destruct r as [a|e].
  - match goal with |- context [_safe_screenshot H n ?st] =>
      destruct (_safe_screenshot_inert H n st) as (w' & cs' & E' & Hcs');
      destruct (_safe_screenshot H n st) as [r' s1]
    end.
    cbn in E'. subst s1.
    exists w', (cs ++ cs')%list. split.
    { rewrite forallb_app, Hcs1. cbn. rewrite forallb_forall in *.
      intros c Hc. rewrite (Hcs' c Hc). apply orb_true_r. }
    rewrite <- !app_assoc.
    destruct r' as [shot|e].
    + right. exists a, shot. reflexivity.
    + left. exists e. reflexivity.
  - exists w, cs. split; [exact Hcs1|]. left. exists e. reflexivity.
Qed.

(** A tick is its leading wait, a settle and an observation, which touch
    only the world and the call log, then the rule chain. *)
Lemma tick_cases prefs s :
  exists w cs,
    forallb plumbing cs = true /\
    ((exists e,
        tick H prefs s
        = (Raise e, mkSt w (calls s ++ CWaitNetworkIdle 4000 :: cs)%list (handles s)
                         (transcript s) (pending_steps s) (answered s)))
     \/ (exists v ts,
        tick H prefs s
        = decide H prefs ts v
            (mkSt w (calls s ++ CWaitNetworkIdle 4000 :: cs)%list (handles s)
                  (transcript s) (pending_steps s) (answered s)))).
Proof.
  assert (Ht : tick H prefs s =
    match wait_network_idle H 4000 s with
    | (Ok _, s1) =>
        match settle H 450 s1 with
        | (Ok _, s2) =>
            match observe_current_buttons H s2 with
            | (Ok v, s3) =>
                let (ts, w) := now_iso H (world s3) in
                decide H prefs ts v (set_world s3 w)
            | (Raise e, s3) => (Raise e, s3)
            end
        | (Raise e, s2) => (Raise e, s2)
        end
    | (Raise e, s1) => (Raise e, s1)
    end).
  { unfold tick, bind, ask.
    destruct (wait_network_idle H 4000 s) as [[u1|e] s1]; [|reflexivity].
    destruct (settle H 450 s1) as [[u2|e] s2]; [|reflexivity].
    destruct (observe_current_buttons H s2) as [[v|e] s3]; [|reflexivity].
    destruct (now_iso H (world s3)) as [ts w]. reflexivity. }
  rewrite Ht. clear Ht.
  destruct (wait_network_idle_run H 4000 s) as (r1 & w1 & E1). rewrite E1.
  destruct r1 as [u1|e]; [|exists w1, []; split; [reflexivity|]; left; now exists e].
  match goal with |- context [settle H 450 ?st] =>
    destruct (settle_inert H 450 st) as (w2 & c2 & E2 & Hc2);
    destruct (settle H 450 st) as [r2 s2]
  end.
  cbn in E2. subst s2.
  destruct r2 as [u2|e].
  2:{ exists w2, c2. split; [exact Hc2|]. left. exists e.
      now rewrite <- app_assoc. }
  match goal with |- context [observe_current_buttons H ?st] =>
    destruct (observe_current_buttons_inert H st) as (w3 & c3 & E3 & Hc3);
    destruct (observe_current_buttons H st) as [r3 s3]
  end.
  cbn in E3. subst s3.
  destruct r3 as [v|e].
  2:{ exists w3, (c2 ++ c3)%list. split; [now rewrite forallb_app, Hc2, Hc3|].
      left. exists e. now rewrite <- !app_assoc. }
  cbn [world]. destruct (now_iso H w3) as [ts w4].
  exists w4, (c2 ++ c3)%list. split; [now rewrite forallb_app, Hc2, Hc3|].
  right. exists v, ts. unfold set_world. cbn [calls handles transcript pending_steps answered].
  now rewrite <- !app_assoc.
Qed.

End Traces.

Section Outcome.
Context {W : Type} (H : Host W).
Implicit Types s : St W.

Lemma settled_answer visible s0 s l n (ev : string -> string -> Event) (k : M (St W) Flow) :
  calls s = calls s0 -> handles s = handles s0 -> transcript s = transcript s0 ->
  (pending_steps s = pending_steps s0
   \/ (exists lab, pop_matching_click visible (pending_steps s0)
                   = Some (lab, pending_steps s))) ->
  (forall st, exists f, k st = (Ok f, mkSt (world st) (calls st) (handles st)
                                       (transcript st) (pending_steps st)
                                       (answered (snd (k st))))) ->
  Settled visible s0
    ((how <- answer_choice H l false ;;
      shot <- _safe_screenshot H n ;;
      append_event (ev how shot) ;; k) s).
Proof.
  intros Ec Eh Et Ep Hk.
  destruct (answer_then H l n ev k s) as (w & cs & Hcs & [[e E] | (how & shot & E)]);
    rewrite E; clear E.
  - exists (CAnswerChoice l false :: cs). cbn [fst snd calls handles transcript pending_steps].
    rewrite Ec, Eh, Et. repeat split; eauto.
    destruct Ep as [-> | Ep]; auto.
  - match goal with |- context [k ?st] => destruct (Hk st) as [f Ef]; rewrite Ef end.
    exists (CAnswerChoice l false :: cs). cbn [fst snd calls handles transcript pending_steps].
    rewrite Ec, Eh, Et. repeat split; eauto.
    destruct Ep as [-> | Ep]; auto.
Qed.

Lemma ret_keeps (f : Flow) (st : St W) :
  exists f', ret f st = (Ok f', mkSt (world st) (calls st) (handles st)
                                   (transcript st) (pending_steps st)
                                   (answered (snd (ret f st)))).
Proof. exists f. now destruct st. Qed.

Lemma set_answered_keeps (g : St W -> Answered) (f : Flow) (st : St W) :
  exists f',
    (modify (fun s => set_answered (g s) s) ;; ret f) st
    = (Ok f', mkSt (world st) (calls st) (handles st) (transcript st) (pending_steps st)
                   (answered (snd ((modify (fun s => set_answered (g s) s) ;; ret f) st)))).
Proof. exists f. reflexivity. Qed.

(** Whatever rule fires, the rule chain enters [answer_choice] at most
    once, removes at most the one action it executes from the queue, and
    logs exactly one entry unless a helper raised, in which case it logs
    none. *)
Lemma decide_settled prefs ts visible s :
  Settled visible s (decide H prefs ts visible s).
Proof.
  unfold decide.
  destruct (find_progress PROGRESS_BUTTONS visible) as [np|].
  { apply (settled_answer visible s s np "after-progress"
             (fun how shot => action_event ts
                ("Progressed via '" ++ np ++ "' using " ++ how) shot)); auto.
    intros st. apply ret_keeps. }
  unfold bind at 1. cbn [get].
  destruct (negb (term_end (answered s)) && (2 <=? count_common visible term_end_set)%nat).
  { apply (settled_answer visible s s (pref_or (pref_term_end prefs) "3-6 months away")
             "after-term-end-answer"
             (fun how shot => action_event ts
                ("Answered 'term end' -> "
                 ++ pref_or (pref_term_end prefs) "3-6 months away"
                 ++ " via " ++ how) shot)); auto.
    intros st. apply (set_answered_keeps (fun s => mkAnswered true (occupancy (answered s)))). }
  destruct (negb (occupancy (answered s)) && (1 <=? count_common visible occupancy_set)%nat).
  { apply (settled_answer visible s s (pref_or (pref_occupancy prefs) "Live in it")
             "after-occupancy-answer"
             (fun how shot => action_event ts
                ("Answered 'occupancy' -> "
                 ++ pref_or (pref_occupancy prefs) "Live in it"
                 ++ " via " ++ how) shot)); auto.
    intros st. apply (set_answered_keeps (fun s => mkAnswered (term_end (answered s)) true)). }
  destruct (any_contains "check here" visible).
  { apply (settled_answer visible s s "Check here" "after-check-here"
             (fun how shot => action_event ts ("Chose product via " ++ how) shot)); auto.
    intros st. apply ret_keeps. }
  destruct (pop_matching_click visible (pending_steps s)) as [[label rest]|] eqn:Hd.
  { unfold bind at 1. cbn [modify].
    apply (settled_answer visible s (set_pending rest s) label "after-explicit-choice"
             (fun how shot => action_event ts
                ("Matched transcript choice '" ++ label ++ "' via " ++ how) shot)); auto.
    - right. now exists label.
    - intros st. apply ret_keeps. }
  destruct (pop_next_free_text (pending_steps s)) as [[txt rest]|] eqn:He.
  { unfold bind at 1. cbn [modify].
    destruct (act_then H plumbing (type_and_log H txt) "after-free-text"
                (fun (_ : bool) shot => mkEvent ts "user" "You" txt (Some shot))
                (ret Continue) (set_pending rest s) (type_and_log_inert H txt))
      as (w & cs & Hcs & [[e E] | (a & shot & E)]); cbv beta in E; rewrite E; clear E;
      exists cs; cbn [fst snd calls handles transcript pending_steps set_pending ret];
      (split; [reflexivity|]);
      (split; [right; apply quiet_of_plumbing; rewrite forallb_forall in *;
               intros c Hc; specialize (Hcs c Hc); now rewrite orb_diag in Hcs|]);
      (split; [reflexivity|]); (split; [right; right; now exists txt|]); eauto. }
  destruct (act_then H quiet (scroll_probe H 3 visible) "idle-no-action"
              (fun (_ : list string) shot =>
                 mkEvent ts "info" "TestingAgent"
                   "No matching buttons or text left; pausing." (Some shot))
              (ret Break) s (scroll_probe_quiet H 3 visible))
    as (w & cs & Hcs & [[e E] | (a & shot & E)]); cbv beta in E; rewrite E; clear E;
    exists cs; cbn [fst snd calls handles transcript pending_steps ret];
    (split; [reflexivity|]);
    (split; [right; rewrite forallb_forall in *; intros c Hc; specialize (Hcs c Hc);
             unfold quiet in *; destruct (plumbing c); [reflexivity|];
             now rewrite orb_false_r in Hcs|]);
    (split; [reflexivity|]); (split; [now left|]); eauto.
Qed.

(** X3.  One pass of the main loop, on any host and from any state: the
    pass calls the network-idle wait first and [answer_choice] at most
    once; it leaves the browser handles alone; it takes at most one action
    off the pending queue and adds none; and it appends exactly one log
    entry when it completes, none when a helper raises. *)
Theorem tick_effect prefs s :
  exists cs,
    calls (snd (tick H prefs s)) = (calls s ++ CWaitNetworkIdle 4000 :: cs)%list
    /\ forallb in_tick cs = true
    /\ length (filter is_answer_call cs) <= 1
    /\ handles (snd (tick H prefs s)) = handles s
    /\ Subseq (pending_steps (snd (tick H prefs s))) (pending_steps s)
    /\ length (pending_steps s) <= S (length (pending_steps (snd (tick H prefs s))))
    /\ ((exists e, fst (tick H prefs s) = Raise e
                   /\ transcript (snd (tick H prefs s)) = transcript s)
        \/ (exists f ev, fst (tick H prefs s) = Ok f
                         /\ transcript (snd (tick H prefs s))
                            = (transcript s ++ [ev])%list)).
Proof.
  destruct (tick_cases H prefs s) as (w & cs & Hcs & [[e E] | (v & ts & E)]); rewrite E.
  - exists cs. cbn [fst snd calls handles transcript pending_steps].
    split; [reflexivity|]. split; [now apply in_tick_weaken|].
    split; [rewrite (quiet_no_answer cs (quiet_of_plumbing cs Hcs)); cbn; lia|].
    split; [reflexivity|]. split; [apply subseq_refl|]. split; [lia|].
    left. now exists e.
  - match goal with |- context [decide H prefs ts v ?st] =>
      destruct (decide_settled prefs ts v st) as (cd & Ec & Hshape & Eh & Hq & Hlog);
      set (r := decide H prefs ts v st) in *
    end.
    cbn [calls handles transcript pending_steps] in Ec, Eh, Hq, Hlog.
    exists (cs ++ cd)%list.
    split; [rewrite Ec, <- app_assoc; reflexivity|].
    assert (Hcd : forallb in_tick cd = true /\ length (filter is_answer_call cd) <= 1).
    { destruct Hshape as [(l & cs' & -> & Hp) | Hquiet].
      - split; [cbn; now apply in_tick_weaken|].
        cbn. rewrite (quiet_no_answer cs' (quiet_of_plumbing cs' Hp)). cbn. lia.
      - split.
        + rewrite forallb_forall in *. intros c Hc. specialize (Hquiet c Hc).
          unfold quiet, in_tick in *. apply orb_true_iff in Hquiet as [-> | ->];
            [reflexivity | now rewrite orb_true_r].
        + rewrite (quiet_no_answer cd Hquiet). cbn. lia. }
    destruct Hcd as [Hin Hone].
    split; [rewrite forallb_app, (in_tick_weaken cs Hcs), Hin; reflexivity|].
    split; [rewrite filter_app, length_app,
              (quiet_no_answer cs (quiet_of_plumbing cs Hcs)); cbn; lia|].
    split; [exact Eh|].
    assert (Hsub : Subseq (pending_steps (snd r)) (pending_steps s)
                   /\ length (pending_steps s) <= S (length (pending_steps (snd r)))).
    { destruct Hq as [-> | [[lab Hp] | (t & _ & Hp)]].
      - split; [apply subseq_refl | lia].
      - apply pop_matching_click_some in Hp as (l1 & l2 & -> & -> & _).
        split; [apply subseq_remove|]. rewrite !length_app. cbn. lia.
      - apply pop_next_free_text_some in Hp as (l1 & l2 & -> & -> & _).
        split; [apply subseq_remove|]. rewrite !length_app. cbn. lia. }
    destruct Hsub as [Hsub Hlen].
    split; [exact Hsub|]. split; [exact Hlen|]. exact Hlog.
Qed.

(** X4.  The main loop, on any host, for any bound and from any state: the
    log is only appended to, with one entry per completed pass, so that the
    entries added are as many as the passes begun, less one when the loop
    ends in an exception; [answer_choice] is entered at most once per pass;
    the pending queue only loses actions, at most one per pass; the browser
    handles are left alone; and no more than [n] passes are begun. *)
Theorem main_loop_effect n prefs : forall s,
  exists es cs,
    transcript (snd (main_loop H n prefs s)) = (transcript s ++ es)%list
    /\ calls (snd (main_loop H n prefs s)) = (calls s ++ cs)%list
    /\ handles (snd (main_loop H n prefs s)) = handles s
    /\ Subseq (pending_steps (snd (main_loop H n prefs s))) (pending_steps s)
    /\ length (pending_steps s)
       <= length (pending_steps (snd (main_loop H n prefs s))) + ticks cs
    /\ length (filter is_answer_call cs) <= ticks cs
    /\ ticks cs <= n
    /\ match fst (main_loop H n prefs s) with
       | Ok _ => length es = ticks cs
       | Raise _ => S (length es) = ticks cs
       end.
Proof.
  induction n as [|n IH]; intros s; cbn [main_loop].
  - exists [], []. cbn. rewrite !app_nil_r.
    repeat split; auto using subseq_refl; lia.
  - destruct (tick_effect prefs s) as (c1 & Ec & Hin & Hone & Eh & Hsub & Hlen & Hlog).
    assert (Ht : ticks (CWaitNetworkIdle 4000 :: c1) = 1).
    { change (CWaitNetworkIdle 4000 :: c1) with ([CWaitNetworkIdle 4000] ++ c1)%list.
      rewrite ticks_app, (ticks_in_tick c1 Hin). reflexivity. }
    assert (Ha : length (filter is_answer_call (CWaitNetworkIdle 4000 :: c1)) <= 1)
      by exact Hone.
    unfold bind.
    destruct (tick H prefs s) as [[f|e] s1]; cbn [fst snd] in *.
    + destruct Hlog as [(e & He & _) | (f' & ev & _ & Et)]; [discriminate He|].
      destruct f.
      * destruct (IH s1) as (es & cs & Et' & Ec' & Eh' & Hsub' & Hlen' & Hone' & Hn & Hres).
        exists (ev :: es), ((CWaitNetworkIdle 4000 :: c1) ++ cs)%list.
        rewrite Et', Et, Ec', Ec, <- !app_assoc, Eh', Eh.
        split; [reflexivity|]. split; [reflexivity|]. split; [reflexivity|].
        split; [eapply subseq_trans; eauto|].
        rewrite ticks_app, filter_app, length_app, Ht.
        split; [lia|]. split; [lia|]. split; [lia|].
        destruct (fst (main_loop H n prefs s1)); cbn [length]; lia.
      * exists [ev], (CWaitNetworkIdle 4000 :: c1).
        cbn [ret fst snd]. rewrite Ht.
        repeat split; auto; lia.
    + destruct Hlog as [(e' & _ & Et) | (f' & ev & He & _)]; [|discriminate He].
      exists [], (CWaitNetworkIdle 4000 :: c1). rewrite Ht, app_nil_r.
      repeat split; auto; lia.
Qed.

End Outcome.

Section Ways.
Context {W : Type} (H : Host W).
Implicit Types s : St W.







End Ways.

Ltac norm :=
  cbn [fst snd world calls handles transcript pending_steps answered
       h_pw h_browser h_context h_page].

Ltac split_on op :=
  match goal with
  | |- context [op ?h ?x] =>
      let E := fresh "E" in
      destruct (op h x) as [[?|?] ?] eqn:E; norm; rewrite ?E; norm
  end.

Section Edges.
Context {W : Type} (H : Host W).
Implicit Types s : St W.

(** X6.  [_safe_screenshot] never raises, whatever the host does: it
    returns the controller's path, or the time-stamped fallback path, which
    needs a page, or the empty string; it calls the controller's
    [screenshot] exactly once and changes nothing but the outside world and
    the call log. *)
Theorem safe_screenshot_never_raises n s :
  exists path w,
    _safe_screenshot H n s
    = (Ok path, mkSt w (calls s ++ [CSafeScreenshot n; CScreenshot n])%list (handles s)
                     (transcript s) (pending_steps s) (answered s))
    /\ (path = "files/screenshots/" ++ n ++ ".png"
        \/ (h_page (handles s) = true
            /\ path = "files/shots/" ++ n ++ "-" ++ fst (now_stamp H (world s)) ++ ".png")
        \/ path = EmptyString).
Proof.
  unfold _safe_screenshot, screenshot, try_except, bind, enter, ask, prim, get, ret, set_world.
  cbn [fst world calls handles transcript pending_steps answered].
  destruct (now_stamp H (world s)) as [ts w0].
  cbn [fst world calls handles transcript pending_steps answered].
  match goal with |- context [page_screenshot H ?p w0] =>
    destruct (page_screenshot H p w0) as [[u|e] w1] end.
  { eexists _, w1. split; [rewrite <- app_assoc; reflexivity|]. now left. }
  cbn [fst world calls handles transcript pending_steps answered].
  destruct (mkdir H "files/shots" w1) as [[u|e'] w2].
  2:{ eexists _, w2. split; [rewrite <- app_assoc; reflexivity|]. now right; right. }
  cbn [fst world calls handles transcript pending_steps answered].
  destruct (h_page (handles s)).
  2:{ eexists _, w2. split; [rewrite <- app_assoc; reflexivity|]. now right; right. }
  cbn [fst world calls handles transcript pending_steps answered].
  match goal with |- context [page_screenshot H ?p w2] =>
    destruct (page_screenshot H p w2) as [[u'|e'] w3] end.
  - eexists _, w3. split; [rewrite <- app_assoc; reflexivity|]. right; left. now split.
  - eexists _, w3. split; [rewrite <- app_assoc; reflexivity|]. now right; right.
Qed.

(** X7.  [BrowserController.close], on any host and with any handles set:
    nothing is reset and only the outside world changes; with no handle set
    the host is not touched; Playwright is stopped whenever it was started,
    whatever the two closes before it did, and an exception of the stop is
    the one that surfaces; and when closing the context raises, the browser
    is not closed: the stop, if any, is the next and last step, and the call
    ends in an exception. *)
Theorem close_effect s :
  exists w,
    snd (close H s)
    = mkSt w (calls s ++ [CClose])%list (handles s)
           (transcript s) (pending_steps s) (answered s)
    /\ (handles s = mkHandles false false false false ->
        w = world s /\ fst (close H s) = Ok tt)
    /\ (h_pw (handles s) = true ->
        exists w0, w = snd (pw_stop H w0)
                   /\ forall e, fst (pw_stop H w0) = Raise e -> fst (close H s) = Raise e)
    /\ (forall e, h_context (handles s) = true ->
                  fst (context_close H (world s)) = Raise e ->
        w = (if h_pw (handles s)
             then snd (pw_stop H (snd (context_close H (world s))))
             else snd (context_close H (world s)))
        /\ exists e', fst (close H s) = Raise e'
                      /\ (e' = e
                          \/ (h_pw (handles s) = true
                              /\ fst (pw_stop H (snd (context_close H (world s))))
                                 = Raise e'))).
Proof.
  destruct s as [w0 cs [pw br cx pg] tr pd an].
  unfold close, try_finally, bind, enter, get, when, prim, ret, set_world.
  destruct cx, br, pw; norm;
    try split_on (@context_close W);
    try split_on (@browser_close W);
    try split_on (@pw_stop W);
    eexists; (split; [reflexivity|]);
    (split; [intros Hh; try discriminate Hh; now split|]);
    (split; [intros Hh; try discriminate Hh;
             match goal with E3 : pw_stop H ?x = _ |- _ => exists x; rewrite E3 end;
             (split; [reflexivity|]); cbn [fst]; intros ex E'; congruence|]);
    intros ex Hh E'; try discriminate Hh; try discriminate E';
    cbn [fst] in E'; (split; [reflexivity|]);
    eexists; (split; [reflexivity|]);
    first [ left; congruence | right; split; reflexivity ].
Qed.

(** X8.  The consent banners, on any host: the loop never raises, even
    when every click does; it asks for the labels in order, each with
    [exact=False], and stops at the first click that reports success; it
    logs one entry, naming that label, exactly then, and no entry when no
    click succeeds. *)
Theorem consent_loop_effect labels : forall s,
  exists w cs es tried rest,
    consent_loop H labels s
    = (Ok tt, mkSt w (calls s ++ cs)%list (handles s)
                   (transcript s ++ es)%list (pending_steps s) (answered s))
    /\ labels = (tried ++ rest)%list
    /\ filter is_click_call cs = map (fun l => CClickButtonByText l false) tried
    /\ ((es = [] /\ rest = [])
        \/ exists tried' l ts shot,
             tried = (tried' ++ [l])%list
             /\ es = [action_event ts ("Clicked consent: " ++ l) shot]).
Proof.
  induction labels as [|label labels IH]; intros s; cbn [consent_loop].
  - exists (world s), [], [], [], []. rewrite !app_nil_r.
    split; [now destruct s|]. split; [reflexivity|]. split; [reflexivity|]. now left.
  - unfold bind at 1.
    unfold try_except, click_button_by_text, bind at 1, enter, prim, set_world, ret.
    norm.
    destruct (dom_click_button_by_text H label false (world s)) as [r w1].
    set (s1 := mkSt w1 (calls s ++ [CClickButtonByText label false])%list (handles s)
                    (transcript s) (pending_steps s) (answered s)).
    assert (Hno : forall out,
      consent_loop H labels s1 = out ->
      exists w cs es tried rest,
        out = (Ok tt, mkSt w (calls s ++ cs)%list (handles s)
                          (transcript s ++ es)%list (pending_steps s) (answered s))
        /\ label :: labels = (tried ++ rest)%list
        /\ filter is_click_call cs = map (fun l => CClickButtonByText l false) tried
        /\ ((es = [] /\ rest = [])
            \/ exists tried' l ts shot,
                 tried = (tried' ++ [l])%list
                 /\ es = [action_event ts ("Clicked consent: " ++ l) shot])).
    { intros out <-.
      destruct (IH s1) as (w & cs & es & tried & rest & E & El & Ec & Hes).
      exists w, (CClickButtonByText label false :: cs), es, (label :: tried), rest.
      rewrite E. unfold s1. norm. rewrite <- app_assoc.
      split; [reflexivity|]. split; [now rewrite El|].
      split; [cbn; now rewrite Ec|].
      destruct Hes as [[-> ->] | (tried' & l & ts & shot & -> & ->)]; [now left|].
      right. now exists (label :: tried'), l, ts, shot. }
    destruct r as [[|]|e]; try (apply Hno; reflexivity).
    clear Hno. unfold bind.
    destruct (safe_screenshot_never_raises "after-cookie" s1) as (path & w2 & E & _).
    rewrite E. unfold ask, append_event, set_world. norm.
    destruct (now_iso H w2) as [ts w3]. subst s1. norm.
    exists w3, [CClickButtonByText label false; CSafeScreenshot "after-cookie";
                CScreenshot "after-cookie"],
      [action_event ts ("Clicked consent: " ++ label) path], [label], labels.
    rewrite <- app_assoc.
    split; [reflexivity|]. split; [reflexivity|]. split; [reflexivity|].
    right. now exists [], label, ts, path.
Qed.

(** X9.  The end-of-run summary, on any host: it never raises; with
    [AIQA_SKIP_LLM] set it does not touch the testing agent and yields
    "LLM summary skipped."; otherwise it runs the agent once, and an
    exception of the agent becomes the text "Summary failed: " followed by
    the exception's message. *)
Theorem llm_summary_never_raises s :
  exists text w cs,
    llm_summary H s
    = (Ok text, mkSt w (calls s ++ cs)%list (handles s)
                     (transcript s) (pending_steps s) (answered s))
    /\ (skip_llm H (world s) = true ->
        text = "LLM summary skipped." /\ cs = [] /\ w = world s)
    /\ (skip_llm H (world s) = false ->
        cs = [CTestingAgentRun]
        /\ w = snd (testing_agent_run H (world s))
        /\ match fst (testing_agent_run H (world s)) with
           | Ok content => text = content
           | Raise e => text = "Summary failed: " ++ exn_str e
           end).
Proof.
  unfold llm_summary, bind at 1, get.
  destruct (skip_llm H (world s)); cbn [negb].
  - exists "LLM summary skipped.", (world s), []. rewrite app_nil_r.
    split; [now destruct s|]. split; [auto | intros E; discriminate E].
  - unfold try_except, bind, enter, prim, set_world, ret. norm.
    destruct (testing_agent_run H (world s)) as [[content|e] w1]; norm;
      eexists _, w1, [CTestingAgentRun];
      (split; [reflexivity|]); (split; [intros E; discriminate E|]);
      intros _; auto.
Qed.

End Edges.

End EngineExtras.

(* ===================================================================== *)
(** * Further properties of the loader *)
(* ===================================================================== *)

Module LoaderExtras.
Import Loader Spec Laws.


Lemma list_ascii_app (a b : string) :
  list_ascii_of_string (a ++ b) = (list_ascii_of_string a ++ list_ascii_of_string b)%list.
Proof. induction a as [|c a IH]; cbn; [reflexivity | now rewrite IH]. Qed.

Lemma length_app_string (a b : string) :
  String.length (a ++ b) = String.length a + String.length b.
Proof. induction a as [|c a IH]; cbn; [reflexivity | now rewrite IH]. Qed.

















(** X11.  The CSV branch of the loader lets only two exceptions through:
    the one of reading the file, and the one of the second parse, which is
    tried only after the first parse raised.  An exception of the sniffer
    or of the first parse never surfaces. *)
Theorem csv_read_failures (L : Libs) (path_str : string) (e : exn) :
  read_csv_robust L path_str = Raise e ->
  read_text L path_str = Raise e
  \/ exists raw0 sep e1,
       read_text L path_str = Ok raw0
       /\ read_csv L (_strip_outer_quotes_from_lines (lstrip_bom raw0)) (Some sep)
          = Raise e1
       /\ read_csv L (_strip_outer_quotes_from_lines (lstrip_bom raw0)) None = Raise e.
Proof.
  unfold read_csv_robust.
  destruct (read_text L path_str) as [raw0|e0];
    [|intros E; left; now injection E as ->].
  set (raw := _strip_outer_quotes_from_lines (lstrip_bom raw0)).
  match goal with |- context [read_csv L raw (Some ?sp)] => set (sep := sp) end.
  destruct (read_csv L raw (Some sep)) as [df|e1] eqn:E1; [discriminate|].
  intros E. right. now exists raw0, sep, e1.
Qed.

Lemma csv_read_failures_witness :
  read_csv_robust Stub.broken_csv "t.csv" = Raise (Exception "second parse")
  /\ (read_text Stub.broken_csv "t.csv" = Raise (Exception "second parse")
      \/ exists raw0 sep e1,
           read_text Stub.broken_csv "t.csv" = Ok raw0
           /\ read_csv Stub.broken_csv (_strip_outer_quotes_from_lines (lstrip_bom raw0))
                (Some sep) = Raise e1
           /\ read_csv Stub.broken_csv (_strip_outer_quotes_from_lines (lstrip_bom raw0)) None
              = Raise (Exception "second parse")).
Proof.
  split; [reflexivity|].
  apply (csv_read_failures Stub.broken_csv "t.csv" (Exception "second parse")). reflexivity.
Defined.




End LoaderExtras.

(* ===================================================================== *)
(** * Properties of the report's escaping *)
(* ===================================================================== *)

Module ReportExtras.
Import Report Laws.

Lemma append_assoc (a b c : string) : (a ++ b) ++ c = a ++ (b ++ c).
Proof. induction a as [|d a IH]; cbn; [reflexivity | now rewrite IH]. Qed.

Lemma replace_char_app (old : ascii) (new a b : string) :
  replace_char old new (a ++ b) = replace_char old new a ++ replace_char old new b.
Proof.
  induction a as [|c a IH]; [reflexivity|].
  cbn [append replace_char]. rewrite IH.
  destruct (Ascii.eqb c old); [now rewrite append_assoc | reflexivity].
Qed.

Lemma escape_cons (c : ascii) (s : string) :
  _escape_html (String c s) = entity c ++ _escape_html s.
Proof.
  unfold _escape_html, entity. cbn [replace_char].
  destruct (Ascii.eqb c "&") eqn:Ea.
  - rewrite !replace_char_app. reflexivity.
  - cbn [replace_char]. destruct (Ascii.eqb c "<") eqn:El.
    + rewrite !replace_char_app. reflexivity.
    + cbn [replace_char]. destruct (Ascii.eqb c ">") eqn:Eg; reflexivity.
Qed.

Lemma unescape_entity (c : ascii) (r : string) :
  unescape_html (entity c ++ r) = String c (unescape_html r).
Proof.
  unfold entity.
  destruct (Ascii.eqb c "&") eqn:Ea; [apply Ascii.eqb_eq in Ea; now subst c|].
  destruct (Ascii.eqb c "<") eqn:El; [apply Ascii.eqb_eq in El; now subst c|].
  destruct (Ascii.eqb c ">") eqn:Eg; [apply Ascii.eqb_eq in Eg; now subst c|].
  cbn [append unescape_html]. now rewrite Ea.
Qed.

Lemma unescape_escape (s : string) : unescape_html (_escape_html s) = s.
Proof.
  induction s as [|c s IH]; [reflexivity|].
  rewrite escape_cons, unescape_entity. now rewrite IH.
Qed.

Lemma entity_plain (c d : ascii) :
  In d (list_ascii_of_string (entity c)) -> d <> "<"%char /\ d <> ">"%char.
Proof.
  unfold entity.
  destruct (Ascii.eqb c "&") eqn:Ea;
    [|destruct (Ascii.eqb c "<") eqn:El; [|destruct (Ascii.eqb c ">") eqn:Eg]];
    cbn; intros Hin;
    repeat (destruct Hin as [<- | Hin]; [split; discriminate|]); try contradiction.
  destruct Hin as [<- | []].
  apply Ascii.eqb_neq in El, Eg. now split.
Qed.

(** X13.  [_escape_html] leaves no angle bracket in its result and loses
    nothing: reading the three entities back gives the text it was given,
    so two different texts never escape to the same string; and the result
    is at least as long as the text. *)
Theorem escape_html_safe_and_lossless (s : string) :
  (forall c, In c (list_ascii_of_string (_escape_html s)) ->
             c <> "<"%char /\ c <> ">"%char)
  /\ unescape_html (_escape_html s) = s
  /\ (forall t, _escape_html s = _escape_html t -> s = t)
  /\ String.length s <= String.length (_escape_html s).
Proof.
  split; [|split; [apply unescape_escape|split]].
  - induction s as [|c0 s IH]; intros c Hin; [destruct Hin|].
    rewrite escape_cons, LoaderExtras.list_ascii_app in Hin.
    apply in_app_or in Hin as [Hin | Hin]; [eapply entity_plain; eauto | auto].
  - intros t E. rewrite <- (unescape_escape s), E. apply unescape_escape.
  - induction s as [|c s IH]; [cbn; lia|].
    rewrite escape_cons, LoaderExtras.length_app_string. cbn [String.length].
    assert (1 <= String.length (entity c)).
    { unfold entity. destruct (Ascii.eqb c "&"), (Ascii.eqb c "<"), (Ascii.eqb c ">");
        cbn; lia. }
    lia.
Qed.

End ReportExtras.

(* ===================================================================== *)
(** * Properties of the visible labels *)
(* ===================================================================== *)

Module ButtonsExtras.
Import Buttons Laws.









Lemma collect_fault (label_of : Element -> string) (pre : list Element) (post : Bucket) :
  collect label_of (map Some pre ++ None :: post)%list = collect label_of (map Some pre).
Proof.
  induction pre as [|e pre IH]; [reflexivity|].
  cbn [map app collect]. rewrite IH. reflexivity.
Qed.


(** X15.  A Playwright exception while a locator is walked costs
    [list_buttons] the rest of that locator only: the labels read before it
    are kept and the other locators are still walked.  A locator whose
    [count()] raises contributes nothing. *)
Theorem list_buttons_survives_faults (pre : list Element) (post bs ls ins lb : Bucket) :
  list_buttons (mkSnapshot (map Some pre ++ None :: post)%list ls ins lb)
  = list_buttons (mkSnapshot (map Some pre) ls ins lb)
  /\ list_buttons (mkSnapshot bs (map Some pre ++ None :: post)%list ins lb)
     = list_buttons (mkSnapshot bs (map Some pre) ins lb)
  /\ list_buttons (mkSnapshot bs ls (map Some pre ++ None :: post)%list lb)
     = list_buttons (mkSnapshot bs ls (map Some pre) lb)
  /\ list_buttons (mkSnapshot bs ls ins (map Some pre ++ None :: post)%list)
     = list_buttons (mkSnapshot bs ls ins (map Some pre)).
Proof.
  unfold list_buttons. cbn [buttons links inputs labels].
  now rewrite !collect_fault.
Qed.

End ButtonsExtras.

(* ===================================================================== *)
(** * Properties of the model evaluation *)
(* ===================================================================== *)

Module EvalExtras.
Import Eval Laws.

Lemma count_row_well_formed (c : Counts) (row : Row) :
  well_formed row = true ->
  count_row c row
  = Ok (mkCounts
          (tp c + (if says row "y_pred" "1" && says row "y_true" "1" then 1 else 0))
          (fp c + (if says row "y_pred" "1" && negb (says row "y_true" "1") then 1 else 0))
          (fn c + (if negb (says row "y_pred" "1") && says row "y_true" "1" then 1 else 0))).
Proof.
  unfold well_formed, count_row, says.
  destruct (field row "y_true") as [yt|e]; [|discriminate].
  destruct (field row "y_pred") as [yp|e]; [|discriminate].
  intros _. destruct c as [a b d]. cbn [tp fp fn].
  destruct (String.eqb yp "1"), (String.eqb yt "1"); cbn [andb negb];
    rewrite ?Z.add_0_r; reflexivity.
Qed.

Lemma count_row_ill_formed (c : Counts) (row : Row) :
  well_formed row = false -> exists e, count_row c row = Raise e.
Proof.
  unfold well_formed, count_row.
  destruct (field row "y_true") as [yt|e]; [|intros _; now exists e].
  destruct (field row "y_pred") as [yp|e]; [discriminate | intros _; now exists e].
Qed.

Lemma count_of_cons (f : Row -> bool) (row : Row) (rows : list Row) :
  count_of f (row :: rows) = ((if f row then 1 else 0) + count_of f rows)%Z.
Proof.
  unfold count_of. cbn [filter]. destruct (f row); cbn [length]; lia.
Qed.

Lemma count_rows_well_formed (rows : list Row) : forall c,
  forallb well_formed rows = true ->
  count_rows c rows
  = Ok (mkCounts
          (tp c + count_of (fun r => says r "y_pred" "1" && says r "y_true" "1") rows)
          (fp c + count_of (fun r => says r "y_pred" "1" && negb (says r "y_true" "1")) rows)
          (fn c + count_of (fun r => negb (says r "y_pred" "1") && says r "y_true" "1") rows)).
Proof.
  induction rows as [|row rows IH]; intros c Hwf.
  - destruct c. cbn. now rewrite !Z.add_0_r.
  - cbn [forallb] in Hwf. apply andb_true_iff in Hwf as [Hrow Hrows].
    cbn [count_rows]. rewrite (count_row_well_formed c row Hrow), (IH _ Hrows).
    cbn [tp fp fn]. rewrite !count_of_cons. f_equal. f_equal; lia.
Qed.

Lemma count_rows_ill_formed (rows : list Row) : forall c,
  forallb well_formed rows = false -> exists e, count_rows c rows = Raise e.
Proof.
  induction rows as [|row rows IH]; intros c Hwf; [discriminate|].
  cbn [forallb] in Hwf. cbn [count_rows].
  destruct (well_formed row) eqn:Hrow.
  - rewrite (count_row_well_formed c row Hrow). apply IH. exact Hwf.
  - destruct (count_row_ill_formed c row Hrow) as [e ->]. now exists e.
Qed.

Section Arithmetic.
Context {F : Type} (A : Floats F).

(** Division raises on a zero divisor only. *)
Hypothesis int_div_defined : forall a b, b <> 0%Z -> exists x, int_div A a b = Ok x.
Hypothesis f_div_defined :
  forall x y, f_truthy A y = true -> exists z, f_div A x y = Ok z.

Lemma precision_recall_f1_total (tp fp fn : Z) :
  exists r,
    precision_recall_f1 A tp fp fn = Ok r
    /\ ((tp + fp = 0)%Z -> precision r = f_zero A)
    /\ ((tp + fn = 0)%Z -> recall r = f_zero A)
    /\ (f_truthy A (f_add A (precision r) (recall r)) = false -> f1 r = f_zero A).
Proof.
  unfold precision_recall_f1.
  assert (Hq : forall d, exists q,
             (if Z.eqb d 0 then Ok (f_zero A) else int_div A tp d) = Ok q
             /\ (d = 0%Z -> q = f_zero A)).
  { intros d. destruct (Z.eqb d 0) eqn:Ed.
    - exists (f_zero A). now split.
    - apply Z.eqb_neq in Ed. destruct (int_div_defined tp d Ed) as [q Eq].
      exists q. split; [exact Eq | intros E; contradiction]. }
  destruct (Hq (tp + fp)%Z) as (p & -> & Hp).
  destruct (Hq (tp + fn)%Z) as (r & -> & Hr).
  destruct (f_truthy A (f_add A p r)) eqn:Et.
  - destruct (f_div_defined (f_mul A (f_mul A (of_int A 2) p) r) (f_add A p r) Et)
      as [z ->].
    eexists. split; [reflexivity|]. cbn [precision recall f1].
    split; [exact Hp|]. split; [exact Hr|]. rewrite Et. discriminate.
  - eexists. split; [reflexivity|]. cbn [precision recall f1].
    split; [exact Hp|]. split; [exact Hr|]. reflexivity.
Qed.

End Arithmetic.

(** X16.  [evaluate_predictions] on rows that all have both columns: the
    three counters are the numbers of rows with prediction and truth both
    "1", with prediction "1" only, and with truth "1" only, each value
    stripped and compared as a string, rows with neither left uncounted;
    and the metrics are those of [precision_recall_f1] on these counts.  A
    row that lacks a column or a value ends the evaluation in an
    exception. *)
Theorem evaluate_predictions_counts {F : Type} (A : Floats F) (rows : list Row) :
  (forallb well_formed rows = true ->
   evaluate_predictions A (Ok rows)
   = precision_recall_f1 A
       (count_of (fun r => says r "y_pred" "1" && says r "y_true" "1") rows)
       (count_of (fun r => says r "y_pred" "1" && negb (says r "y_true" "1")) rows)
       (count_of (fun r => negb (says r "y_pred" "1") && says r "y_true" "1") rows))
  /\ (forallb well_formed rows = false ->
      exists e, evaluate_predictions A (Ok rows) = Raise e).
Proof.
  unfold evaluate_predictions. split; intros Hwf.
  - rewrite (count_rows_well_formed rows _ Hwf). reflexivity.
  - destruct (count_rows_ill_formed rows (mkCounts 0 0 0) Hwf) as [e ->]. now exists e.
Qed.

(** X17.  [precision_recall_f1] never divides by zero: on a float
    arithmetic whose divisions raise for a zero divisor only, it returns for
    all counts, negative ones included; a ratio whose denominator is zero is
    0.0, and so is the F1 score when precision plus recall is falsy. *)
Theorem precision_recall_f1_never_divides_by_zero
    {F : Type} (A : Floats F) (tp fp fn : Z) :
  (forall a b, b <> 0%Z -> exists x, int_div A a b = Ok x) ->
  (forall x y, f_truthy A y = true -> exists z, f_div A x y = Ok z) ->
  exists r,
    precision_recall_f1 A tp fp fn = Ok r
    /\ ((tp + fp = 0)%Z -> precision r = f_zero A)
    /\ ((tp + fn = 0)%Z -> recall r = f_zero A)
    /\ (f_truthy A (f_add A (precision r) (recall r)) = false -> f1 r = f_zero A).
Proof. intros Hi Hf. now apply precision_recall_f1_total. Qed.

Lemma precision_recall_f1_never_divides_by_zero_witness :
  (forall a b, b <> 0%Z -> exists x, int_div exact a b = Ok x)
  /\ (forall x y, f_truthy exact y = true -> exists z, f_div exact x y = Ok z)
  /\ exists r,
       precision_recall_f1 exact 3 1 2 = Ok r
       /\ ((3 + 1 = 0)%Z -> precision r = f_zero exact)
       /\ ((3 + 2 = 0)%Z -> recall r = f_zero exact)
       /\ (f_truthy exact (f_add exact (precision r) (recall r)) = false ->
           f1 r = f_zero exact).
Proof.
  assert (Hi : forall a b, b <> 0%Z -> exists x, int_div exact a b = Ok x).
  { intros a b Hb. cbn. apply Z.eqb_neq in Hb. rewrite Hb. now eexists. }
  assert (Hf : forall x y, f_truthy exact y = true -> exists z, f_div exact x y = Ok z).
  { intros x y Hy. cbn in *. destruct (Z.eqb (fst y) 0); [discriminate | now eexists]. }
  split; [exact Hi|]. split; [exact Hf|].
  exact (precision_recall_f1_never_divides_by_zero exact 3 1 2 Hi Hf).
Defined.

End EvalExtras.

(* ===================================================================== *)
(** * Further properties of the run *)
(* ===================================================================== *)

Module RunExtras.
Import Loader Compiler Engine Stub Spec Laws CompilerFacts EngineFacts EngineExtras.

Section Setup.
Context {W : Type} (H : Host W).
Implicit Types s : St W.


(** X19.  The transcript is loaded before anything is launched: when
    [build_steps_from_excel] fails, the run ends in an exception with no
    controller method called, no handle acquired and nothing logged; the
    exception is the loader's own unless making a directory raised first. *)
Theorem load_failure_launches_nothing (cfg : Config) s (e : exn) :
  build_steps_from_excel (files H) EXCEL_TRANSCRIPT = Raise e ->
  exists e' w,
    run_scenario1 H cfg s
    = (Raise e', mkSt w (calls s) (handles s) (transcript s)
                      (pending_steps s) (answered s))
    /\ ((forall d, succeeds (mkdir H d)) -> e' = e).
Proof.
  intros Hb. unfold run_scenario1. rewrite Hb.
  unfold bind, prim, lift, set_world. norm.
  destruct (mkdir H (reports_dir cfg) (world s)) as [[u1|e1] w1] eqn:E1; norm.
  - destruct (mkdir H (files_root cfg) w1) as [[u2|e2] w2] eqn:E2; norm.
    + exists e, w2. split; [reflexivity | auto].
    + exists e2, w2. split; [reflexivity|]. intros Hm.
      destruct (Hm (files_root cfg) w1) as [a Ha]. rewrite E2 in Ha. discriminate Ha.
  - exists e1, w1. split; [reflexivity|]. intros Hm.
    destruct (Hm (reports_dir cfg) (world s)) as [a Ha]. rewrite E1 in Ha. discriminate Ha.
Qed.

End Setup.


Lemma load_failure_launches_nothing_witness :
  exists e,
    build_steps_from_excel (files (host no_message_column)) EXCEL_TRANSCRIPT = Raise e
    /\ kind_of e = MissingColumnsKind
    /\ exists e' w,
         run_scenario1 (host no_message_column) cfg0 (initial 0)
         = (Raise e', mkSt w (calls (initial 0)) (handles (initial 0))
                           (transcript (initial 0)) (pending_steps (initial 0))
                           (answered (initial 0)))
         /\ ((forall d, succeeds (mkdir (host no_message_column) d)) -> e' = e).
Proof.
  eexists. split; [vm_compute; reflexivity|]. split; [reflexivity|].
  apply (load_failure_launches_nothing (host no_message_column) cfg0 (initial 0)).
  vm_compute. reflexivity.
Defined.



End RunExtras.

(* ===================================================================== *)
(** * The log of a run *)
(* ===================================================================== *)

Module LogExtras.
Import Loader Compiler Engine Stub Spec Laws EngineFacts EngineExtras.

Section Log.
Context {W : Type} (H : Host W).
Implicit Types s : St W.

#[local] Existing Instance keeps_preorder.

Lemma keeps_prim {A} (op : W -> Res A * W) : evolves (Keeps (@transcript W)) (prim op).
Proof. intros s. unfold prim, Keeps. now destruct (op (world s)). Qed.

Lemma keeps_ask {A} (op : W -> A * W) : evolves (Keeps (@transcript W)) (ask op).
Proof. intros s. unfold ask, Keeps. now destruct (op (world s)). Qed.

Lemma keeps_enter (c : Call) : evolves (Keeps (@transcript W)) (enter c).
Proof. intros s. reflexivity. Qed.

Lemma keeps_step {A} (m : M (St W) A) s (r : Res A) s1 :
  evolves (Keeps (@transcript W)) m -> m s = (r, s1) -> transcript s1 = transcript s.
Proof. intros Hm E. specialize (Hm s). now rewrite E in Hm. Qed.

Ltac keep :=
  unfold launch, goto, wait_network_idle, settle, _safe_screenshot, screenshot,
    llm_summary, log_to_excel, render_html_report, close, aclose;
  evolve_with ltac:(first [ apply keeps_prim | apply keeps_ask | apply keeps_enter
                          | apply keeps_modify; intros; reflexivity ]).

Ltac step Hrun a s1 E :=
  apply bind_ok in Hrun; destruct Hrun as (a & s1 & E & Hrun); cbv beta zeta in Hrun.

Ltac kept Hrun s1 K :=
  let a := fresh "a" in
  let E := fresh "E" in
  step Hrun a s1 E;
  assert (K : transcript s1 = transcript _) by (refine (keeps_step _ _ _ _ _ E); keep);
  clear E.

(** X21.  The log of a run that returns, on any host: after what it held
    at the start come the turns of the transcript file, all with one time
    stamp, then the entry "Opened app.", at most one consent entry, at most
    80 entries of the main loop, and last the summary, under the role
    "assistant" and without a screenshot. *)
Theorem returning_run_log (cfg : Config) s s' :
  run_scenario1 H cfg s = (Ok tt, s') ->
  exists built now opened consent loop summary,
    build_steps_from_excel (files H) EXCEL_TRANSCRIPT = Ok built
    /\ transcript s'
       = (transcript s ++ map (event_of_turn now) (snd built)
            ++ [opened] ++ consent ++ loop ++ [summary])%list
    /\ ev_role opened = "action" /\ ev_text opened = "Opened app."
    /\ length consent <= 1
    /\ length loop <= 80
    /\ ev_role summary = "assistant" /\ ev_screenshot summary = None.
Proof.
  unfold run_scenario1. intros Hrun.
  kept Hrun s1 K1. kept Hrun s2 K2.
  step Hrun built s3 E3. unfold lift in E3. injection E3 as Eb <-.
  kept Hrun s4 K4. kept Hrun s5 K5.
  step Hrun now s6 E6. pose proof (keeps_step _ _ _ _ (keeps_ask _) E6) as K6. clear E6.
  step Hrun u7 s7 E7. unfold modify in E7. injection E7 as _ E7.
  assert (K7 : transcript s7
               = (transcript s6 ++ map (event_of_turn now) (snd built))%list)
    by (rewrite <- E7; reflexivity).
  clear E7.
  kept Hrun s8 K8. kept Hrun s9 K9. kept Hrun s10 K10. kept Hrun s11 K11.
  step Hrun shot s12 E12.
  assert (K12 : transcript s12 = transcript s11)
    by (refine (keeps_step _ _ _ _ _ E12); keep).
  clear E12.
  step Hrun ts s13 E13.
  pose proof (keeps_step _ _ _ _ (keeps_ask _) E13) as K13. clear E13.
  step Hrun u14 s14 E14. unfold append_event in E14. injection E14 as _ E14.
  assert (K14 : transcript s14
               = (transcript s13 ++ [action_event ts "Opened app." shot])%list)
    by (rewrite <- E14; reflexivity).
  clear E14.
  step Hrun u15 s15 E15.
  destruct (consent_loop_effect H
              ["Accept all cookies"; "Accept"; "I agree"; "Got it"; "Close"] s14)
    as (w15 & c15 & consent & tried & rest & Ec & _ & _ & Hconsent).
  rewrite Ec in E15. injection E15 as _ E15.
  assert (K15 : transcript s15 = (transcript s14 ++ consent)%list)
    by (rewrite <- E15; reflexivity).
  assert (Hc1 : length consent <= 1).
  { destruct Hconsent as [[-> _] | (t' & l & ts' & sh & _ & ->)]; cbn; lia. }
  clear Ec Hconsent E15.
  kept Hrun s16 K16. kept Hrun s17 K17.
  step Hrun u18 s18 E18.
  destruct (main_loop_effect H 80 (scan_preferences (snd built)) s17)
    as (loop & c18 & Et & _ & _ & _ & _ & _ & Hn & Hres).
  rewrite E18 in Et, Hres. cbn [fst snd] in Et, Hres.
  assert (Hl80 : length loop <= 80) by lia.
  clear E18 Hn Hres.
  step Hrun summary_text s19 E19.
  assert (K19 : transcript s19 = transcript s18)
    by (refine (keeps_step _ _ _ _ _ E19); keep).
  clear E19.
  kept Hrun s20 K20.
  step Hrun ts0 s21 E21.
  pose proof (keeps_step _ _ _ _ (keeps_ask _) E21) as K21. clear E21.
  step Hrun u22 s22 E22. unfold append_event in E22. injection E22 as _ E22.
  assert (K22 : transcript s22
               = (transcript s21
                  ++ [mkEvent ts0 "assistant" "TestingAgent" summary_text None])%list)
    by (rewrite <- E22; reflexivity).
  clear E22.
  kept Hrun s23 K23. kept Hrun s24 K24.
  assert (K25 : transcript s' = transcript s24)
    by (refine (keeps_step _ _ _ _ _ Hrun); keep).
  exists built, now, (action_event ts "Opened app." shot), consent, loop,
    (mkEvent ts0 "assistant" "TestingAgent" summary_text None).
  split; [exact Eb|]. split.
  { rewrite K25, K24, K23, K22, K21, K20, K19, Et, K17, K16, K15, K14, K13, K12,
      K11, K10, K9, K8, K7, K6, K5, K4, K2, K1.
    now rewrite <- !app_assoc. }
  repeat split; auto.
Qed.

End Log.

Lemma returning_run_log_witness :
  fst (run_scenario1 (host (scenario_script true true)) cfg0 (initial 0)) = Ok tt
  /\ exists built now opened consent loop summary,
       build_steps_from_excel (files (host (scenario_script true true))) EXCEL_TRANSCRIPT
       = Ok built
       /\ transcript (snd (run_scenario1 (host (scenario_script true true)) cfg0
                             (initial 0)))
          = (transcript (initial (W := World) 0) ++ map (event_of_turn now) (snd built)
               ++ [opened] ++ consent ++ loop ++ [summary])%list
       /\ ev_role opened = "action" /\ ev_text opened = "Opened app."
       /\ length consent <= 1
       /\ length loop <= 80
       /\ ev_role summary = "assistant" /\ ev_screenshot summary = None.
Proof.
  split; [vm_compute; reflexivity|].
  apply (returning_run_log (host (scenario_script true true)) cfg0 (initial 0)).
  vm_compute. reflexivity.
Defined.

End LogExtras.

(* ===================================================================== *)
(** * The pending queue *)
(* ===================================================================== *)

Module QueueExtras.
Import Compiler Engine Laws EngineExtras.

Lemma pop_matching_click_first visible (l1 l2 : list Step) lab :
  any_contains (Py.lower lab) visible = true ->
  (forall lab', In (Click lab') l1 -> any_contains (Py.lower lab') visible = false) ->
  pop_matching_click visible (l1 ++ Click lab :: l2)%list = Some (lab, (l1 ++ l2)%list).
Proof.
  intros Hm. induction l1 as [|st l1 IH]; intros Hbefore; cbn [app pop_matching_click].
  - now rewrite Hm.
  - rewrite IH by (intros lab' Hin; apply Hbefore; now right).
    destruct st as [l|t]; [|reflexivity].
    now rewrite (Hbefore l (or_introl eq_refl)).
Qed.

Lemma pop_matching_click_absent visible (pending : list Step) :
  (forall lab, In (Click lab) pending -> any_contains (Py.lower lab) visible = false) ->
  pop_matching_click visible pending = None.
Proof.
  induction pending as [|st pending IH]; intros Hno; [reflexivity|].
  cbn [pop_matching_click].
  rewrite IH by (intros lab Hin; apply Hno; now right).
  destruct st as [l|t]; [|reflexivity].
  now rewrite (Hno l (or_introl eq_refl)).
Qed.

Lemma pop_next_free_text_first (l1 l2 : list Step) t :
  (forall t', ~ In (FreeText t') l1) ->
  pop_next_free_text (l1 ++ FreeText t :: l2)%list = Some (t, (l1 ++ l2)%list).
Proof.
  induction l1 as [|st l1 IH]; intros Hbefore; cbn [app pop_next_free_text];
    [reflexivity|].
  destruct st as [l|t0].
  - now rewrite IH by (intros t' Hin; apply (Hbefore t'); now right).
  - exfalso. apply (Hbefore t0). now left.
Qed.

Lemma pop_next_free_text_absent (pending : list Step) :
  (forall t, ~ In (FreeText t) pending) -> pop_next_free_text pending = None.
Proof.
  induction pending as [|st pending IH]; intros Hno; [reflexivity|].
  cbn [pop_next_free_text]. destruct st as [l|t0].
  - now rewrite IH by (intros t Hin; apply (Hno t); now right).
  - exfalso. apply (Hno t0). now left.
Qed.

(** X22.  The two pops of the pending queue.  [_pop_matching_click] takes
    the earliest pending click whose label, lower-cased, is contained in a
    lower-cased visible label, and nothing when there is none;
    [_pop_next_free_text] takes the earliest pending free text, and nothing
    when there is none.  Either leaves the other actions in their order. *)
Theorem pops_take_the_earliest (visible : list string) (pending : list Step) :
  (forall lab rest,
      pop_matching_click visible pending = Some (lab, rest) <->
      exists l1 l2,
        pending = (l1 ++ Click lab :: l2)%list
        /\ rest = (l1 ++ l2)%list
        /\ any_contains (Py.lower lab) visible = true
        /\ (forall lab', In (Click lab') l1 ->
                         any_contains (Py.lower lab') visible = false))
  /\ (pop_matching_click visible pending = None <->
      forall lab, In (Click lab) pending -> any_contains (Py.lower lab) visible = false)
  /\ (forall t rest,
        pop_next_free_text pending = Some (t, rest) <->
        exists l1 l2,
          pending = (l1 ++ FreeText t :: l2)%list
          /\ rest = (l1 ++ l2)%list
          /\ (forall t', ~ In (FreeText t') l1))
  /\ (pop_next_free_text pending = None <-> forall t, ~ In (FreeText t) pending).
Proof.
  split; [|split; [|split]].
  - intros lab rest. split; [apply pop_matching_click_some|].
    intros (l1 & l2 & -> & -> & Hm & Hbefore). now apply pop_matching_click_first.
  - split; [apply pop_matching_click_none | apply pop_matching_click_absent].
  - intros t rest. split; [apply pop_next_free_text_some|].
    intros (l1 & l2 & -> & -> & Hbefore). now apply pop_next_free_text_first.
  - split; [apply pop_next_free_text_none | apply pop_next_free_text_absent].
Qed.

End QueueExtras.
